(** * Spyfall room: the replicated store, the vote tally, the spy guess,
      the idle close, the name claims and the round operations of
      [src/app/page.tsx], embedded in Rocq.

    The page keeps the room in a Yjs document (maps [players], [state],
    [votes], [joinAt], [lastSeen], [activityAt], [openVoteReq],
    [nameClaims] and the array [chat]).  React re-reads the document into
    a snapshot on every change ([useRoom]'s [sync]); handlers and effects
    read the snapshot and write the document through [api].  The model
    keeps the two apart: [Doc] is the document, [View] the snapshot. *)

From Stdlib Require Import ZArith Ascii String List Lia.
From stdpp Require Import gmap strings list fin_maps pretty.

Open Scope string_scope.
Open Scope Z_scope.
Open Scope list_scope.

(** ** JavaScript values stored in the [state] map *)

Module Js.

(** [stateY] is a [Y.Map<any>]; the values the page stores in it are
    [null], numbers (timestamps and counters, integers), strings,
    arrays of strings ([spyIds], [selectedLocations]) and string-keyed
    records ([roles], [spyChoices]; a missing or [undefined] member is
    [None]). *)
Inductive Val :=
| VNull
| VNum (n : Z)
| VStr (s : string)
| VArr (l : list string)
| VRec (r : gmap string (option string)).

(** An object literal, as [Object.entries] lists it. *)
Definition Obj := list (string * Val).

(** [{ ...o, k: v }]: an existing property keeps its place. *)
Fixpoint assign (o : Obj) (k : string) (v : Val) : Obj :=
  match o with
  | [] => [(k, v)]
  | (k', v') :: o' =>
      if bool_decide (k' = k) then (k, v) :: o' else (k', v') :: assign o' k v
  end.

(** [{ ...o, ...extra }] *)
Definition spread (o extra : Obj) : Obj :=
  foldl (λ acc kv, assign acc kv.1 kv.2) o extra.

(** Truthiness of a string ([!s] is true for the empty string only). *)
Definition truthyStr (s : string) : bool := negb (bool_decide (s = "")).

(** Truthiness of a number ([!n] is true for [0]). *)
Definition truthyNum (n : Z) : bool := negb (bool_decide (n = 0)).

Definition truthy (v : Val) : bool :=
  match v with
  | VNull => false
  | VNum n => truthyNum n
  | VStr s => truthyStr s
  | VArr _ => true
  | VRec _ => true
  end.

End Js.
Export Js.

(** ** Names

    Strings are byte strings.  [trim], [\s], [\d] and [toLowerCase]
    are modelled on the ASCII range: white space is one of the six
    ASCII white-space characters, a digit is [0]..[9], and only [A]..[Z]
    change under [toLowerCase]; every other byte is left as it is. *)

Module Names.

(** [\s] *)
Definition isSpace (c : ascii) : bool :=
  let n := nat_of_ascii c in
  ((9 <=? n) && (n <=? 13) || (n =? 32))%nat.

(** [\d] *)
Definition isDigit (c : ascii) : bool :=
  let n := nat_of_ascii c in ((48 <=? n) && (n <=? 57))%nat.

Fixpoint trimStart (s : string) : string :=
  match s with
  | EmptyString => EmptyString
  | String c r => if isSpace c then trimStart r else s
  end.

Fixpoint trimEnd (s : string) : string :=
  match s with
  | EmptyString => EmptyString
  | String c r =>
      match trimEnd r with
      | EmptyString => if isSpace c then EmptyString else String c EmptyString
      | r' => String c r'
      end
  end.

(** [s.trim()] *)
Definition trim (s : string) : string := trimEnd (trimStart s).

(** [s.replace(/\s+/g, ' ')]; [inRun] says that the character before was
    white space of the run being replaced. *)
Fixpoint collapseFrom (inRun : bool) (s : string) : string :=
  match s with
  | EmptyString => EmptyString
  | String c r =>
      if isSpace c
      then (if inRun then collapseFrom true r else String " " (collapseFrom true r))
      else String c (collapseFrom false r)
  end.

(** [(input || '').trim().replace(/\s+/g, ' ')] *)
Definition normalizeName (input : string) : string := collapseFrom false (trim input).

Definition lowerChar (c : ascii) : ascii :=
  let n := nat_of_ascii c in
  if ((65 <=? n) && (n <=? 90))%nat then ascii_of_nat (n + 32) else c.

(** [s.toLowerCase()] *)
Fixpoint toLowerCase (s : string) : string :=
  match s with
  | EmptyString => EmptyString
  | String c r => String (lowerChar c) (toLowerCase r)
  end.

(** [const nameKey = (n) => normalizeName(n).toLowerCase()] *)
Definition nameKey (n : string) : string := toLowerCase (normalizeName n).

(** The longest prefix of [l] whose members satisfy [f], and the rest. *)
Fixpoint span {A} (f : A → bool) (l : list A) : list A * list A :=
  match l with
  | [] => ([], [])
  | x :: r => if f x then let (a, b) := span f r in (x :: a, b) else ([], l)
  end.

(** [s.replace(/\s+\(\d+\)$/, '')]: read from the end, the string is
    [)], one or more digits, [(], one or more white-space characters;
    the match starts at the first character of that white-space run. *)
Definition stripNumberSuffix (s : string) : string :=
  match reverse (list_ascii_of_string s) with
  | ")"%char :: r1 =>
      let (digits, r2) := span isDigit r1 in
      match digits, r2 with
      | _ :: _, "("%char :: r3 =>
          let (spaces, r4) := span isSpace r3 in
          match spaces with
          | _ :: _ => string_of_list_ascii (reverse r4)
          | [] => s
          end
      | _, _ => s
      end
  | _ => s
  end.

(** [const baseName = (n) => normalizeName(n).replace(/\s+\(\d+\)$/, '')] *)
Definition baseName (n : string) : string := stripNumberSuffix (normalizeName n).

(** The template [`${base} (${i})`]. *)
Definition numbered (base : string) (i : nat) : string :=
  base +:+ " (" +:+ pretty i +:+ ")".

End Names.
Export Names.

(** ** Types of the page *)

Record Player := mkPlayer { pid : string; pname : string }.

Global Instance Player_eq_dec : EqDecision Player.
Proof. solve_decision. Defined.

(** A value of the [votes] map: either a bare target id (the older
    format the page still reads) or [{ target, confirmed? }]. *)
Inductive VoteVal :=
| VoteStr (target : string)
| VoteObj (target : string) (confirmed : option bool).

Global Instance VoteVal_eq_dec : EqDecision VoteVal.
Proof. solve_decision. Defined.

Record ChatMsg := mkChat {
  chat_id : string; chat_name : string; chat_text : string; chat_ts : Z }.

Inductive Lang := TH | EN.

(** [DEFAULT_STATE], as [Object.entries(DEFAULT_STATE)] lists it. *)
Definition DEFAULT_STATE : Obj :=
  [ ("phase", VStr "lobby");
    ("hostId", VNull);
    ("gameMode", VStr "classic");
    ("createdAt", VNull);
    ("roundNumber", VNum 0);
    ("roundStartAt", VNull);
    ("timerEnd", VNull);
    ("voteWindowEndsAt", VNull);
    ("tieGuessEndsAt", VNull);
    ("voteAnnouncedRound", VNull);
    ("voteWindowSetRound", VNull);
    ("location", VNull);
    ("spyId", VNull);
    ("spyIds", VNull);
    ("roles", VRec ∅);
    ("selectedLocations", VNull);
    ("spyChoices", VRec ∅);
    ("winner", VNull);
    ("winReason", VNull);
    ("closedAt", VNull) ].

Definition INACTIVITY_MS : Z := 5 * 60 * 1000.

(** ** The replicated document *)

Record Doc := mkDoc {
  playersY : gmap string Player;
  stateY : gmap string Val;
  votesY : gmap string VoteVal;
  joinAtY : gmap string Z;
  lastSeenY : gmap string Z;
  chatY : list ChatMsg;
  activityY : gmap string Z;
  openVoteReqY : gmap string Z;
  nameClaimsY : gmap string string }.

(** A fresh [Y.Doc]. *)
Definition emptyDoc : Doc := mkDoc ∅ ∅ ∅ ∅ ∅ [] ∅ ∅ ∅.

Definition onPlayers (f : gmap string Player → gmap string Player) (d : Doc) : Doc :=
  mkDoc (f (playersY d)) (stateY d) (votesY d) (joinAtY d) (lastSeenY d)
        (chatY d) (activityY d) (openVoteReqY d) (nameClaimsY d).
Definition onState (f : gmap string Val → gmap string Val) (d : Doc) : Doc :=
  mkDoc (playersY d) (f (stateY d)) (votesY d) (joinAtY d) (lastSeenY d)
        (chatY d) (activityY d) (openVoteReqY d) (nameClaimsY d).
Definition onVotes (f : gmap string VoteVal → gmap string VoteVal) (d : Doc) : Doc :=
  mkDoc (playersY d) (stateY d) (f (votesY d)) (joinAtY d) (lastSeenY d)
        (chatY d) (activityY d) (openVoteReqY d) (nameClaimsY d).
Definition onJoinAt (f : gmap string Z → gmap string Z) (d : Doc) : Doc :=
  mkDoc (playersY d) (stateY d) (votesY d) (f (joinAtY d)) (lastSeenY d)
        (chatY d) (activityY d) (openVoteReqY d) (nameClaimsY d).
Definition onLastSeen (f : gmap string Z → gmap string Z) (d : Doc) : Doc :=
  mkDoc (playersY d) (stateY d) (votesY d) (joinAtY d) (f (lastSeenY d))
        (chatY d) (activityY d) (openVoteReqY d) (nameClaimsY d).
Definition onChat (f : list ChatMsg → list ChatMsg) (d : Doc) : Doc :=
  mkDoc (playersY d) (stateY d) (votesY d) (joinAtY d) (lastSeenY d)
        (f (chatY d)) (activityY d) (openVoteReqY d) (nameClaimsY d).
Definition onActivity (f : gmap string Z → gmap string Z) (d : Doc) : Doc :=
  mkDoc (playersY d) (stateY d) (votesY d) (joinAtY d) (lastSeenY d)
        (chatY d) (f (activityY d)) (openVoteReqY d) (nameClaimsY d).
Definition onOpenVoteReq (f : gmap string Z → gmap string Z) (d : Doc) : Doc :=
  mkDoc (playersY d) (stateY d) (votesY d) (joinAtY d) (lastSeenY d)
        (chatY d) (activityY d) (f (openVoteReqY d)) (nameClaimsY d).
Definition onNameClaims (f : gmap string string → gmap string string) (d : Doc) : Doc :=
  mkDoc (playersY d) (stateY d) (votesY d) (joinAtY d) (lastSeenY d)
        (chatY d) (activityY d) (openVoteReqY d) (f (nameClaimsY d)).

(** ** [api]: the document operations of [useRoom] *)

Module api.

Definition addPlayer (p : Player) : Doc → Doc := onPlayers <[pid p := p]>.

(** [for (const [k, v] of Object.entries(partial)) stateY.set(k, v)] *)
Definition setState (partial : Obj) : Doc → Doc :=
  onState (λ m, foldl (λ acc kv, <[kv.1 := kv.2]> acc) m partial).

Definition setSelectedLocations (l : list string) : Doc → Doc :=
  onState <["selectedLocations" := VArr l]>.

(** [for (const key of Array.from(votesY.keys())) votesY.delete(key)] *)
Definition resetVotes : Doc → Doc :=
  onVotes (λ m, foldl (λ acc k, delete k acc) m (map_to_list m).*1).

Definition vote (voterId targetId : string) (d : Doc) : Doc :=
  let existing := votesY d !! voterId in
  let existingTarget :=
    match existing with
    | Some (VoteStr s) => Some s
    | Some (VoteObj t _) => Some t
    | None => None
    end in
  let existingConfirmed :=
    match existing with
    | Some (VoteObj _ c) => default false c
    | _ => false
    end in
  if existingConfirmed then d
  else if bool_decide (existingTarget = Some targetId)
       then onVotes (delete voterId) d
       else onVotes <[voterId := VoteObj targetId (Some false)]> d.

(** [!existing] also holds for a bare empty string. *)
Definition confirmVote (voterId : string) (d : Doc) : Doc :=
  match votesY d !! voterId with
  | None => d
  | Some (VoteStr s) =>
      if truthyStr s then onVotes <[voterId := VoteObj s (Some true)]> d else d
  | Some (VoteObj t _) => onVotes <[voterId := VoteObj t (Some true)]> d
  end.

Definition sendChat (msg : ChatMsg) : Doc → Doc := onChat (λ l, l ++ [msg]).
Definition setJoinAt (id : string) (at_ : Z) : Doc → Doc := onJoinAt <[id := at_]>.
Definition setLastSeen (id : string) (at_ : Z) : Doc → Doc := onLastSeen <[id := at_]>.
Definition setActivity (id : string) (at_ : Z) : Doc → Doc := onActivity <[id := at_]>.

Definition requestOpenVote (id : string) (on : bool) : Doc → Doc :=
  onOpenVoteReq <[id := if on then 1 else 0]>.
Definition resetOpenVoteRequests : Doc → Doc :=
  onOpenVoteReq (λ m, foldl (λ acc k, delete k acc) m (map_to_list m).*1).

End api.

(** ** The snapshot React renders from ([useRoom]'s [sync]) *)

Record View := mkView {
  players : list Player;
  state : gmap string Val;
  votes : gmap string VoteVal;
  joinAt : gmap string Z;
  lastSeen : gmap string Z;
  chat : list ChatMsg;
  activity : gmap string Z;
  openVoteReq : gmap string Z }.

(** [typeof val === 'string' ? { target: val, confirmed: false } : val] *)
Definition syncVote (val : VoteVal) : VoteVal :=
  match val with
  | VoteStr t => VoteObj t (Some false)
  | VoteObj _ _ => val
  end.

(** [players] is [Array.from(playersY.values())] and [state] is
    [{ ...DEFAULT_STATE, ...s }] for the entries [s] of [stateY].  The
    order in which a [Y.Map] lists its entries is the replica's own;
    the model lists a map with [map_to_list]. *)
Definition defaultState : gmap string Val := list_to_map DEFAULT_STATE.
Global Arguments defaultState : simpl never.

Definition sync (d : Doc) : View :=
  {| players := (map_to_list (playersY d)).*2;
     state := stateY d ∪ defaultState;
     votes := syncVote <$> votesY d;
     joinAt := joinAtY d;
     lastSeen := lastSeenY d;
     chat := chatY d;
     activity := activityY d;
     openVoteReq := openVoteReqY d |}.

(** An entry of the location catalogue. *)
Record Location := mkLocation { loc_name : string; loc_roles : list string }.

Global Instance Location_inhabited : Inhabited Location :=
  populate (mkLocation EmptyString []).

(** What a handler reads of the component besides the snapshot: React
    state of its own ([me.id], [connectedUI], [lang], [duration]), the
    catalogue [useLocations] has loaded, and the collation behind
    [String.prototype.localeCompare] in the client's locale. *)
Record Client := mkClient {
  me : string;
  connectedUI : bool;
  lang : Lang;
  duration : Z;
  locations : list Location;
  localeCompare : string → string → Z }.

(** ** Reading the snapshot *)

(** [state.k || 0] and [state.k ?? 0] for a field of type [number | null]. *)
Definition numOr0 (st : gmap string Val) (k : string) : Z :=
  match st !! k with
  | Some (VNum n) => n
  | _ => 0
  end.

(** [state.phase === p] *)
Definition phaseIs (v : View) (p : string) : bool :=
  match state v !! "phase" with
  | Some (VStr q) => bool_decide (q = p)
  | _ => false
  end.

(** [const isHost = state.hostId === me.id] *)
Definition isHost (c : Client) (v : View) : bool :=
  match state v !! "hostId" with
  | Some (VStr h) => bool_decide (h = me c)
  | _ => false
  end.

(** [(state.spyIds && state.spyIds.length ? state.spyIds
      : state.spyId ? [state.spyId] : []) || []] *)
Definition spiesOf (st : gmap string Val) : list string :=
  let single :=
    match st !! "spyId" with
    | Some (VStr s) => if truthyStr s then [s] else []
    | _ => []
    end in
  match st !! "spyIds" with
  | Some (VArr l) => if bool_decide (l = []) then single else l
  | _ => single
  end.
Definition spies (v : View) : list string := spiesOf (state v).

(** [spies.includes(x)] *)
Definition includes (l : list string) (x : string) : bool :=
  existsb (λ y, bool_decide (y = x)) l.

Definition isSpy (c : Client) (v : View) : bool := includes (spies v) (me c).

(** [const roundStartAt = state.roundStartAt ?? 0] *)
Definition roundStartAt (v : View) : Z := numOr0 (state v) "roundStartAt".

(** [joinAt[id] ?? 0] *)
Definition joinAtOr0 (v : View) (id : string) : Z := default 0 (joinAt v !! id).

Definition eligiblePlayers (v : View) : list Player :=
  filter (λ p, joinAtOr0 v (pid p) ≤ roundStartAt v) (players v).

(** [typeof entry === 'string' ? entry : entry?.target] *)
Definition entryTarget (entry : VoteVal) : string :=
  match entry with
  | VoteStr s => s
  | VoteObj t _ => t
  end.

(** [typeof entry === 'object' ? !!entry?.confirmed : false], which is
    also [!!votes[uid]?.confirmed]. *)
Definition entryConfirmed (entry : VoteVal) : bool :=
  match entry with
  | VoteStr _ => false
  | VoteObj _ c => default false c
  end.

Definition confirmedCount (v : View) : nat :=
  if (0 <? length (eligiblePlayers v))%nat
  then length (filter
         (λ uid, existsb (λ p, bool_decide (pid p = uid)) (eligiblePlayers v)
                 && match votes v !! uid with
                    | Some e => entryConfirmed e
                    | None => false
                    end = true)
         (map_to_list (votes v)).*1)
  else 0%nat.

Definition everyoneConfirmed (v : View) : bool :=
  (0 <? length (eligiblePlayers v))%nat
  && bool_decide (confirmedCount v = length (eligiblePlayers v)).

(** ** The world a handler runs in *)

(** The document, the component's per-round guard refs, the clock that
    [Date.now()] reads, the source of [Math.random()] and the number of
    microtasks [api.removePlayer] has queued. *)
Record World := mkWorld {
  w_doc : Doc;
  processedVotesForRoundRef : option Z;
  forceEndRef : option Z;
  w_clock : nat → Z;
  w_reads : nat;
  w_random : nat → nat;
  w_draws : nat;
  w_queued : nat }.

Definition M (A : Type) : Type := World → A * World.

Global Instance M_ret : MRet M := λ A x w, (x, w).
Global Instance M_bind : MBind M := λ A B f m w, let (x, w') := m w in f x w'.

(** The world after a handler has run. *)
Definition exec {A} (m : M A) (w : World) : World := (m w).2.

(** A write to the document. *)
Definition onDoc (f : Doc → Doc) : M unit := λ w,
  ((), mkWorld (f (w_doc w)) (processedVotesForRoundRef w) (forceEndRef w)
         (w_clock w) (w_reads w) (w_random w) (w_draws w) (w_queued w)).

(** [Date.now()]: the next reading of the clock. *)
Definition dateNow : M Z := λ w,
  (w_clock w (w_reads w),
   mkWorld (w_doc w) (processedVotesForRoundRef w) (forceEndRef w)
     (w_clock w) (S (w_reads w)) (w_random w) (w_draws w) (w_queued w)).

(** [Math.floor(Math.random() * n)]: a draw from [0 .. n-1]. *)
Definition randomBelow (n : nat) : M nat := λ w,
  ((w_random w (w_draws w) `mod` n)%nat,
   mkWorld (w_doc w) (processedVotesForRoundRef w) (forceEndRef w)
     (w_clock w) (w_reads w) (w_random w) (S (w_draws w)) (w_queued w)).

Definition getProcessedVotesForRound : M (option Z) := λ w,
  (processedVotesForRoundRef w, w).
Definition setProcessedVotesForRound (r : option Z) : M unit := λ w,
  ((), mkWorld (w_doc w) r (forceEndRef w)
         (w_clock w) (w_reads w) (w_random w) (w_draws w) (w_queued w)).
Definition setForceEnd (r : option Z) : M unit := λ w,
  ((), mkWorld (w_doc w) (processedVotesForRoundRef w) r
         (w_clock w) (w_reads w) (w_random w) (w_draws w) (w_queued w)).

(** [queueMicrotask(...)] *)
Definition queueMicrotask : M unit := λ w,
  ((), mkWorld (w_doc w) (processedVotesForRoundRef w) (forceEndRef w)
         (w_clock w) (w_reads w) (w_random w) (w_draws w) (S (w_queued w))).

(** A world with nothing queued and no guard set. *)
Definition worldOf (d : Doc) (clock : nat → Z) (random : nat → nat) : World :=
  mkWorld d None None clock 0 random 0 0.

(** ** Chat helpers *)

(** The double quote character of the guess messages. *)
Definition dq : string := String (ascii_of_nat 34) EmptyString.

Inductive Winner := civ | spy.

Definition winnerVal (w : Winner) : Val :=
  match w with civ => VStr "civ" | spy => VStr "spy" end.

(** [{ id: 'system', name: lang === 'th' ? 'ระบบ' : 'System', text, ts }] *)
Definition systemMsg (l : Lang) (text : string) (ts : Z) : ChatMsg :=
  mkChat "system" (match l with TH => "ระบบ" | EN => "System" end) text ts.

(** [api.sendChat({ id: 'system', ..., text, ts: Date.now() })] *)
Definition sendSystem (c : Client) (text : string) : M unit :=
  ts ← dateNow; onDoc (api.sendChat (systemMsg (lang c) text ts)).

(** [players.find(p => p.id === id)?.name || dflt] *)
Definition playerNameOr (v : View) (id : string) (dflt : string) : string :=
  match List.find (λ p, bool_decide (pid p = id)) (players v) with
  | Some p => if truthyStr (pname p) then pname p else dflt
  | None => dflt
  end.

Definition postVoteSummaryChat (c : Client) (v : View) (targetIds : list string)
    (isTie : bool) (winner : option Winner) : M unit :=
  let lines :=
    (λ voter,
       let entry := votes v !! pid voter in
       let confirmed := match entry with Some e => entryConfirmed e | None => false end in
       let targetName :=
         match entry with
         | Some (VoteObj targetId _) =>
             if truthyStr targetId then playerNameOr v targetId "—" else "—"
         | _ => "—"
         end in
       pname voter +:+ " → " +:+ (if confirmed then targetName else "—"))
    <$> eligiblePlayers v in
  let header := match lang c with TH => "สรุปโหวต: " | EN => "Vote summary: " end in
  sendSystem c (header +:+ String.concat " | " lines);;
  if isTie then
    sendSystem c (match lang c with
                  | TH => "ผลโหวตเสมอ ให้สปายเดา 1 ครั้ง (20 วิ)"
                  | EN => "Tie: spy gets one guess (20s)." end)
  else
    match winner with
    | Some civ =>
        sendSystem c (match lang c with
                      | TH => "✅ โหวตถูกตัวสายลับ — ผู้เล่นทั่วไปชนะ"
                      | EN => "✅ Voted the spy — Civilians win" end)
    | Some spy =>
        sendSystem c (match lang c with
                      | TH => "❌ โหวตผิด — สายลับชนะ"
                      | EN => "❌ Wrong vote — Spy wins" end)
    | None => mret ()
    end.

(** ** The vote tally *)

(** [counts[targetId] = (counts[targetId] || 0) + 1] *)
Definition bump (counts : gmap string nat) (targetId : string) : gmap string nat :=
  <[targetId := (default 0 (counts !! targetId) + 1)%nat]> counts.

(** [new Set(eligiblePlayers.map(p => p.id))] *)
Definition eligibleIdsOf (v : View) : gset string :=
  list_to_set (pid <$> eligiblePlayers v).

(** The counting loop of the effect that runs once everyone has
    confirmed (it skips a vote only on [!targetId || !confirmed]). *)
Definition countsEveryoneConfirmed (v : View) : gmap string nat :=
  let eligibleIds := eligibleIdsOf v in
  foldl (λ counts ve,
           if negb (bool_decide (ve.1 ∈ eligibleIds)) then counts else
           let targetId := entryTarget ve.2 in
           let confirmed := entryConfirmed ve.2 in
           if negb (truthyStr targetId) || negb confirmed then counts
           else bump counts targetId)
        ∅ (map_to_list (votes v)).

(** The counting loop of the effect that runs when the vote window has
    elapsed (it also skips on [!eligibleIds.has(targetId)]). *)
Definition countsWindowElapsed (v : View) : gmap string nat :=
  let eligibleIds := eligibleIdsOf v in
  foldl (λ counts ve,
           if negb (bool_decide (ve.1 ∈ eligibleIds)) then counts else
           let targetId := entryTarget ve.2 in
           let confirmed := entryConfirmed ve.2 in
           if negb (truthyStr targetId) || negb confirmed
              || negb (bool_decide (targetId ∈ eligibleIds)) then counts
           else bump counts targetId)
        ∅ (map_to_list (votes v)).

(** [const values = Object.values(counts);
     const max = values.length ? Math.max(...values) : 0] *)
Definition maxOf (counts : gmap string nat) : nat :=
  let values := (map_to_list counts).*2 in
  if bool_decide (length values = 0%nat) then 0%nat else max_list values.

(** [Object.entries(counts).filter(([, c]) => c === max).map(([tid]) => tid)] *)
Definition topTargetsOf (counts : gmap string nat) : list string :=
  (filter (λ tc, tc.2 = maxOf counts) (map_to_list counts)).*1.

(** [topTargets.length >= 2 && max > 0] *)
Definition isTieOf (counts : gmap string nat) : bool :=
  (2 <=? length (topTargetsOf counts))%nat && (0 <? maxOf counts)%nat.

(** [const guessedId = topTargets[0] || null] *)
Definition guessedIdOf (topTargets : list string) : option string :=
  match head topTargets with
  | Some t => if truthyStr t then Some t else None
  | None => None
  end.

(** [guessedId ? spies.includes(guessedId) : false] *)
Definition isSpyHitOf (v : View) (guessedId : option string) : bool :=
  match guessedId with
  | Some g => includes (spies v) g
  | None => false
  end.

Definition voteReason (l : Lang) (isSpyHit : bool) : string :=
  if isSpyHit
  then match l with TH => "โหวตถูกตัวสายลับ" | EN => "Voted the spy correctly" end
  else match l with TH => "โหวตผิดตัว" | EN => "Voted the wrong person" end.

(** The state written on a tie; each [Date.now()] is a reading of its own. *)
Definition enterTieGuess : M unit :=
  t1 ← dateNow;
  t2 ← dateNow;
  onDoc (api.setState
    [ ("phase", VStr "tie-guess");
      ("voteWindowEndsAt", VNull);
      ("tieGuessEndsAt", VNum (t1 + 20000));
      ("timerEnd", VNum (t2 + 20000)) ]).

(** Effect: every eligible player has confirmed (host only). *)
Definition everyoneConfirmedEffect (c : Client) (v : View) : M unit :=
  if negb (isHost c v) then mret () else
  if negb (phaseIs v "voting") then mret () else
  if negb (everyoneConfirmed v) then mret () else
  let key := numOr0 (state v) "roundStartAt" in
  processed ← getProcessedVotesForRound;
  if bool_decide (processed = Some key) then mret () else
  setProcessedVotesForRound (Some key);;
  let counts := countsEveryoneConfirmed v in
  let topTargets := topTargetsOf counts in
  if isTieOf counts then
    enterTieGuess;;
    postVoteSummaryChat c v topTargets true None
  else
    let guessedId := guessedIdOf topTargets in
    let isSpyHit := isSpyHitOf v guessedId in
    let winner := if isSpyHit then civ else spy in
    let reason := voteReason (lang c) isSpyHit in
    onDoc (api.setState
      [("phase", VStr "revealed"); ("winner", winnerVal winner); ("winReason", VStr reason)]);;
    postVoteSummaryChat c v topTargets false (Some winner).

(** Effect: the 30 s vote window has elapsed (host only). *)
Definition voteWindowElapsedEffect (c : Client) (v : View) : M unit :=
  if negb (isHost c v) then mret () else
  if negb (phaseIs v "voting") then mret () else
  if negb (truthyNum (numOr0 (state v) "voteWindowEndsAt")) then mret () else
  now ← dateNow;
  if bool_decide (now < numOr0 (state v) "voteWindowEndsAt") then mret () else
  let eligibleIds := eligibleIdsOf v in
  let counts := countsWindowElapsed v in
  let topTargets := topTargetsOf counts in
  if isTieOf counts then
    enterTieGuess;;
    postVoteSummaryChat c v topTargets true None
  else
    let guessedId := guessedIdOf topTargets in
    let isSpyHit := isSpyHitOf v guessedId in
    let winner := if isSpyHit then civ else spy in
    let reason := voteReason (lang c) isSpyHit in
    onDoc (api.setState
      [("phase", VStr "revealed"); ("winner", winnerVal winner); ("winReason", VStr reason)]);;
    let details :=
      String.concat " | "
        (omap (λ ve,
                 if negb (bool_decide (ve.1 ∈ eligibleIds)) then None else
                 let voterName := playerNameOr v ve.1 "??" in
                 let targetName := playerNameOr v (entryTarget ve.2) "—" in
                 let confirmed := entryConfirmed ve.2 in
                 Some (voterName +:+ " → " +:+ (if confirmed then targetName else "—")))
              (map_to_list (votes v))) in
    sendSystem c ((match lang c with TH => "สรุปโหวต: " | EN => "Vote summary: " end) +:+ details);;
    sendSystem c (match winner, lang c with
                  | civ, TH => "✅ โหวตถูกตัวสายลับ — ผู้เล่นทั่วไปชนะ"
                  | civ, EN => "✅ Civilians win"
                  | spy, TH => "❌ โหวตผิด — สายลับชนะ"
                  | spy, EN => "❌ Spy wins"
                  end).

(** ** The spy's guess *)

(** [pickName === state.location] *)
Definition locationIs (v : View) (pickName : string) : bool :=
  match state v !! "location" with
  | Some (VStr l) => bool_decide (pickName = l)
  | _ => false
  end.

Definition handleSpyPickWin (c : Client) (v : View) (pickName : string) : M unit :=
  if negb (isSpy c v) then mret () else
  if negb (phaseIs v "voting" || phaseIs v "tie-guess") then mret () else
  if phaseIs v "tie-guess" then
    let correct := locationIs v pickName in
    let winner := if correct then spy else civ in
    let reason :=
      if correct
      then match lang c with TH => "สายลับเดาถูกหลังผลเสมอ" | EN => "Spy guessed correctly after tie" end
      else match lang c with TH => "สายลับเดาผิดหลังผลเสมอ" | EN => "Spy guessed wrong after tie" end in
    onDoc (api.setState
      [("phase", VStr "revealed"); ("winner", winnerVal winner); ("winReason", VStr reason)]);;
    sendSystem c
      (match lang c with
       | TH => "ผลชี้ขาดโดยสายลับ: เดา " +:+ dq +:+ pickName +:+ dq +:+ " → "
               +:+ (if correct then "ถูก ✅" else "ผิด ❌")
       | EN => "Spy tiebreak guess: " +:+ dq +:+ pickName +:+ dq +:+ " → "
               +:+ (if correct then "correct ✅" else "wrong ❌")
       end)
  else if phaseIs v "voting" then
    let correct := locationIs v pickName in
    onDoc (api.setState
      [ ("phase", VStr "revealed");
        ("winner", winnerVal (if correct then spy else civ));
        ("winReason", VStr
           (if correct
            then match lang c with TH => "สายลับเดาสถานที่ถูก" | EN => "Spy guessed correctly" end
            else match lang c with TH => "สายลับเดาผิด" | EN => "Spy guessed wrong" end)) ]);;
    sendSystem c
      (match lang c with
       | TH => "สายลับกดยอมรับและเดา " +:+ dq +:+ pickName +:+ dq +:+ " → "
               +:+ (if correct then "ถูก ✅" else "ผิด ❌")
       | EN => "Spy accepted & guessed " +:+ dq +:+ pickName +:+ dq +:+ " → "
               +:+ (if correct then "correct ✅" else "wrong ❌")
       end)
  else mret ().

(** ** The tally, as the specification words it *)

(** "Among confirmed votes from eligible voters whose target is
    eligible, count per target": the number of confirmed votes of
    eligible voters that name the eligible player [t].  It is the one
    count of the specification, whichever way the vote resolves. *)
Definition tally (v : View) (t : string) : nat :=
  length (filter (λ ve : string * VoteVal,
                    ve.1 ∈ eligibleIdsOf v ∧ entryConfirmed ve.2 = true
                    ∧ entryTarget ve.2 = t ∧ t ≠ "" ∧ t ∈ eligibleIdsOf v)
                 (map_to_list (votes v))).

(** Two distinct targets share the highest count, and it is not zero. *)
Definition tied (cnt : string → nat) : Prop :=
  ∃ a b, a ≠ b ∧ cnt a = cnt b ∧ (0 < cnt a)%nat ∧ ∀ t, (cnt t ≤ cnt a)%nat.

(** [t] alone has the highest count. *)
Definition singleTop (cnt : string → nat) (t : string) : Prop :=
  (0 < cnt t)%nat ∧ ∀ u, u ≠ t → (cnt u < cnt t)%nat.

(** The guards of the effect that resolves the vote once everyone has
    confirmed all pass. *)
Definition resolvesByConfirmation (c : Client) (v : View) (w : World) : Prop :=
  isHost c v = true ∧ phaseIs v "voting" = true ∧ everyoneConfirmed v = true
  ∧ processedVotesForRoundRef w ≠ Some (numOr0 (state v) "roundStartAt").

(** The guards of the effect that resolves the vote at the end of the
    window all pass: the clock has reached [voteWindowEndsAt]. *)
Definition resolvesByWindow (c : Client) (v : View) (w : World) : Prop :=
  isHost c v = true ∧ phaseIs v "voting" = true
  ∧ numOr0 (state v) "voteWindowEndsAt" ≠ 0
  ∧ numOr0 (state v) "voteWindowEndsAt" ≤ w_clock w (w_reads w).

(** Nobody who is voted for has left: every confirmed vote of an
    eligible voter that names anyone names an eligible player. *)
Definition targetsPresent (v : View) : Prop :=
  ∀ u e, votes v !! u = Some e → u ∈ eligibleIdsOf v → entryConfirmed e = true →
         entryTarget e ≠ "" → entryTarget e ∈ eligibleIdsOf v.

(** ** Leaving: [api.removePlayer] *)

(** The synchronous part, up to [queueMicrotask]. *)
Definition removePlayerNow (id : string) (d : Doc) : Doc :=
  let d1 :=
    match playersY d !! id with
    | Some cur =>
        let k := nameKey (pname cur) in
        if bool_decide (nameClaimsY d !! k = Some id)
        then onNameClaims (delete k) d else d
    | None => d
    end in
  let d2 :=
    onOpenVoteReq (delete id) (onActivity (delete id) (onVotes (delete id)
      (onLastSeen (delete id) (onJoinAt (delete id) (onPlayers (delete id) d1))))) in
  match stateY d2 !! "hostId" with
  | Some (VStr h) => if bool_decide (h = id) then onState <["hostId" := VNull]> d2 else d2
  | _ => d2
  end.

(** [for (const k of Array.from(m.keys())) m.delete(k)] *)
Definition clearKeys {A} (m : gmap string A) : gmap string A :=
  foldl (λ acc k, delete k acc) m (map_to_list m).*1.

(** The queued microtask: once no player is left the room is reset. *)
Definition removePlayerMicrotask : M unit := λ w,
  if bool_decide (size (playersY (w_doc w)) = 0%nat)
  then (now ← dateNow;
        onDoc (λ d,
          api.setState DEFAULT_STATE
            (onNameClaims clearKeys (onOpenVoteReq clearKeys (onActivity clearKeys
              (onLastSeen clearKeys (onJoinAt clearKeys (onVotes clearKeys
                (onState <["closedAt" := VNum now]> d))))))))) w
  else ((), w).

Definition removePlayer (id : string) : M unit :=
  onDoc (removePlayerNow id);; queueMicrotask.

Fixpoint runQueued (n : nat) : M unit :=
  match n with
  | O => mret ()
  | S k => removePlayerMicrotask;; runQueued k
  end.

(** The microtask checkpoint after a handler has returned. *)
Definition flushMicrotasks : M unit := λ w,
  runQueued (w_queued w)
    (mkWorld (w_doc w) (processedVotesForRoundRef w) (forceEndRef w)
       (w_clock w) (w_reads w) (w_random w) (w_draws w) 0).

(** ** Closing an idle room *)

(** [Math.max(0, ...xs)] on integers. *)
Definition maxZ (xs : list Z) : Z := foldr Z.max 0 xs.

(** [Math.max(0, ...(activityVals.length ? activityVals : [0]),
              state.roundStartAt || 0, state.createdAt || 0)] *)
Definition latestActivityOf (v : View) : Z :=
  let activityVals := (map_to_list (activity v)).*2 in
  maxZ ((if bool_decide (length activityVals = 0%nat) then [0] else activityVals)
        ++ [numOr0 (state v) "roundStartAt"; numOr0 (state v) "createdAt"]).

(** [!!state.closedAt] *)
Definition closedAtSet (v : View) : bool :=
  match state v !! "closedAt" with
  | Some x => truthy x
  | None => false
  end.

Definition idleCloseEffect (c : Client) (v : View) : M unit :=
  if negb (connectedUI c) then mret () else
  let latestActivity := latestActivityOf v in
  if bool_decide (latestActivity = 0) then mret () else
  now ← dateNow;
  if bool_decide (INACTIVITY_MS ≤ now - latestActivity) && negb (closedAtSet v) then
    closed ← dateNow;
    onDoc (api.setState
      [ ("phase", VStr "lobby"); ("closedAt", VNum closed); ("winner", VNull);
        ("winReason", VNull); ("selectedLocations", VNull); ("spyChoices", VRec ∅);
        ("voteAnnouncedRound", VNull); ("voteWindowSetRound", VNull) ]);;
    sendSystem c (match lang c with
                  | TH => "ไม่มีความเคลื่อนไหวนาน 5 นาที — ปิดห้องและลบเซสชัน"
                  | EN => "Room idle for 5 minutes — closing and clearing session."
                  end);;
    foldr (λ p rest, removePlayer p;; rest) (mret ()) (map_to_list (activity v)).*1
  else mret ().

(** ** A new round *)

(** [state.k], read off the snapshot to build an object literal. *)
Definition field (v : View) (k : string) : Val := default VNull (state v !! k).

Definition newRound (c : Client) (v : View) : M unit :=
  if negb (isHost c v) then mret () else
  onDoc (api.setState
    (spread DEFAULT_STATE
       [ ("hostId", field v "hostId");
         ("gameMode", field v "gameMode");
         ("createdAt", field v "createdAt");
         ("roundNumber", field v "roundNumber") ]));;
  setProcessedVotesForRound None;;
  setForceEnd None;;
  onDoc api.resetVotes;;
  onDoc api.resetOpenVoteRequests.

(** ** Starting a round *)

(** [[...xs].sort(() => Math.random() - 0.5)]: a comparator that answers
    at random leaves the engine's sort with some rearrangement of [xs];
    the model draws which one. *)
Definition randomOrder {A} (xs : list A) : M (list A) :=
  k ← randomBelow (length (permutations xs));
  mret (default xs (permutations xs !! k)).

(** [state.selectedLocations && state.selectedLocations.length > 0
      ? locations.filter(l => state.selectedLocations!.includes(l.name))
      : locations] *)
Definition selectedBase (c : Client) (v : View) : list Location :=
  match state v !! "selectedLocations" with
  | Some (VArr (x :: sel)) => filter (λ l, includes (x :: sel) (loc_name l) = true) (locations c)
  | _ => locations c
  end.

(** [state.gameMode === 'double'] *)
Definition isDouble (v : View) : bool :=
  match state v !! "gameMode" with
  | Some (VStr m) => bool_decide (m = "double")
  | _ => false
  end.

(** The role loop: spies are skipped, the others take the shuffled roles
    in turn ([shuffledRoles[ri % shuffledRoles.length]], which is
    [undefined] when the location has no role). *)
Definition assignRoles (ps : list Player) (spyIds shuffledRoles : list string)
    : gmap string (option string) :=
  (foldl (λ (acc : gmap string (option string) * nat) p,
            if includes spyIds (pid p) then acc
            else (<[pid p := shuffledRoles !! (acc.2 `mod` length shuffledRoles)%nat]> acc.1,
                  S acc.2))
         (∅, O) ps).1.

Definition startGame (c : Client) (v : View) : M unit :=
  if negb (isHost c v) then mret () else
  if (length (players v) <? 3)%nat then mret () else
  let base := selectedBase c v in
  pool ← (if (16 <? length base)%nat
          then shuffled ← randomOrder base; mret (take 16 shuffled)
          else mret base);
  if bool_decide (length pool = 0%nat) then mret () else
  let poolNames := loc_name <$> pool in
  onDoc (api.setSelectedLocations poolNames);;
  li ← randomBelow (length pool);
  let loc := pool !!! li in
  let ids := pid <$> players v in
  spyIds ← (if isDouble v && (8 <=? length (players v))%nat
            then i1 ← randomBelow (length ids);
                 r2 ← randomBelow (length ids);
                 let i2 := if bool_decide (r2 = i1) then ((i1 + 1) `mod` length ids)%nat else r2 in
                 mret [ids !!! i1; ids !!! i2]
            else i ← randomBelow (length ids);
                 mret [ids !!! i]);
  let spyId := default VNull (VStr <$> head spyIds) in
  shuffledRoles ← randomOrder (loc_roles loc);
  let roles := assignRoles (players v) spyIds shuffledRoles in
  t1 ← dateNow;
  let end_ := t1 + duration c * 60 * 1000 in
  let nextRound := numOr0 (state v) "roundNumber" + 1 in
  t2 ← dateNow;
  onDoc (api.setState
    [ ("phase", VStr "playing");
      ("location", VStr (loc_name loc));
      ("spyId", spyId); ("spyIds", VArr spyIds);
      ("roles", VRec roles);
      ("timerEnd", VNum end_);
      ("roundStartAt", VNum t2);
      ("roundNumber", VNum nextRound);
      ("spyChoices", VRec ∅);
      ("voteWindowEndsAt", VNull); ("tieGuessEndsAt", VNull);
      ("voteAnnouncedRound", VNull); ("voteWindowSetRound", VNull);
      ("closedAt", VNull);
      ("winner", VNull); ("winReason", VNull) ]);;
  setProcessedVotesForRound None;;
  setForceEnd None;;
  onDoc api.resetVotes;;
  onDoc api.resetOpenVoteRequests;;
  sendSystem c (match lang c with
                | TH => "เกมที่ " +:+ pretty nextRound +:+ " เริ่มแล้ว"
                | EN => "Game " +:+ pretty nextRound +:+ " started"
                end).

(** ** Joining under a unique name *)

(** [!owner] *)
Definition unowned (owner : option string) : bool :=
  match owner with
  | None => true
  | Some o => negb (truthyStr o)
  end.

(** The [while (true)] loop of [joinNow]: the first of [base],
    [base (2)], [base (3)], ... whose key is unowned or owned by [id].
    [attempt] and [i] are the loop variables; [fuel] bounds the turns
    (one more than the number of claims is always enough, as is shown
    below). *)
Fixpoint claimLoop (fuel : nat) (claims : gmap string string) (id base attempt : string)
    (i : nat) : option string :=
  match fuel with
  | O => None
  | S fuel' =>
      let owner := claims !! nameKey attempt in
      if unowned owner || bool_decide (owner = Some id) then Some attempt
      else claimLoop fuel' claims id base (numbered base (S i)) (S i)
  end.

(** [joinNow], once [waitUntilConnected] has returned.  The writes to
    React state, the address bar and local storage that follow the
    transaction are not part of the room. *)
Definition joinNow (id name : string) : M unit := λ w,
  let d := w_doc w in
  let base := if truthyStr (normalizeName name) then normalizeName name else "Player" in
  match playersY d !! id with
  | Some self =>
      let selfKey := nameKey (pname self) in
      let claims :=
        if bool_decide (nameClaimsY d !! selfKey = Some id)
           && negb (bool_decide (nameKey base = selfKey))
        then delete selfKey (nameClaimsY d) else nameClaimsY d in
      match claimLoop (S (size claims)) claims id base base 1 with
      | Some finalName =>
          let d1 := onNameClaims (λ _, <[nameKey finalName := id]> claims) d in
          let d2 := if bool_decide (pname self = finalName) then d1
                    else onPlayers <[id := mkPlayer id finalName]> d1 in
          (if truthyNum (default 0 (joinAtY d2 !! id)) then onDoc (λ _, d2)
           else now ← dateNow; onDoc (λ _, api.setJoinAt id now d2)) w
      | None => ((), w)
      end
  | None =>
      let claims := nameClaimsY d in
      match claimLoop (S (size claims)) claims id base base 1 with
      | Some finalName =>
          let d1 := if unowned (claims !! nameKey finalName)
                    then onNameClaims <[nameKey finalName := id]> d else d in
          (now ← dateNow;
           onDoc (λ _, api.setJoinAt id now (onPlayers <[id := mkPlayer id finalName]> d1))) w
      | None => ((), w)
      end
  end.

(** ** Re-deriving one's own name from the roster *)

(** The comparator of the sort:
    [(joinAt[a.id] ?? 0) - (joinAt[b.id] ?? 0) || a.id.localeCompare(b.id)] *)
Definition joinOrder (c : Client) (v : View) (a b : Player) : Z :=
  let d := joinAtOr0 v (pid a) - joinAtOr0 v (pid b) in
  if bool_decide (d = 0) then localeCompare c (pid a) (pid b) else d.

(** [[...group].sort(cmp)].  The engine's sort is stable: [a] stays
    before a later [b] unless [cmp(a, b) > 0].  The model inserts each
    member, from the last to the first, before the first member of the
    sorted rest that it does not come after. *)
Fixpoint insertBy (cmp : Player → Player → Z) (x : Player) (l : list Player) : list Player :=
  match l with
  | [] => [x]
  | y :: r => if bool_decide (cmp x y ≤ 0) then x :: l else y :: insertBy cmp x r
  end.

Definition sortBy (cmp : Player → Player → Z) (group : list Player) : list Player :=
  foldr (insertBy cmp) [] group.

Definition dedupeEffect (c : Client) (v : View) : M unit := λ w,
  if negb (connectedUI c) || negb (truthyStr (me c)) then ((), w) else
  match playersY (w_doc w) !! me c with
  | None => ((), w)
  | Some self =>
      let base := baseName (pname self) in
      let group :=
        filter (λ p, toLowerCase (baseName (pname p)) = toLowerCase base) (players v) in
      if (length group <=? 1)%nat then ((), w) else
      let sorted := sortBy (joinOrder c v) group in
      match list_find (λ p, pid p = me c) sorted with
      | None => ((), w)
      | Some (myIndex, _) =>
          let desired := if bool_decide (myIndex = 0%nat) then base
                         else numbered base (myIndex + 1) in
          if bool_decide (pname self = desired) then ((), w) else
          onDoc (λ d,
            let oldKey := nameKey (pname self) in
            let d1 := if bool_decide (nameClaimsY d !! oldKey = Some (me c))
                      then onNameClaims (delete oldKey) d else d in
            onPlayers <[me c := mkPlayer (me c) desired]>
              (onNameClaims <[nameKey desired := me c]> d1)) w
      end
  end.

(** ** Sample rooms, used to exercise the statements below *)

(** The players [ids] have joined, and were last active, at [t]. *)
Definition joinedAt (t : Z) (ids : list string) (d : Doc) : Doc :=
  foldl (λ d id, api.setActivity id t (api.setJoinAt id t (api.addPlayer (mkPlayer id id) d)))
        d ids.

(** Each [(voter, target)] has voted and confirmed. *)
Definition votedAndConfirmed (vs : list (string * string)) (d : Doc) : Doc :=
  foldl (λ d vt, api.confirmVote vt.1 (api.vote vt.1 vt.2 d)) d vs.

(** Round 1, begun at 100 at the beach, is in its voting phase; [a] is
    the host and the window ends at 500. *)
Definition votingRound (spyIds : list string) : Obj :=
  [ ("phase", VStr "voting"); ("hostId", VStr "a"); ("createdAt", VNum 5);
    ("roundNumber", VNum 1); ("roundStartAt", VNum 100);
    ("location", VStr "Beach");
    ("spyId", default VNull (VStr <$> head spyIds)); ("spyIds", VArr spyIds);
    ("voteWindowEndsAt", VNum 500); ("timerEnd", VNum 500) ].

Definition hostA : Client := mkClient "a" true EN 8 [] (λ _ _, 0).

(** A clock that reads 1000 at every call, and a source of draws. *)
Definition at1000 : nat → Z := λ _, 1000.
Definition draws0 : nat → nat := λ _, O.

(** Four eligible players, two confirmed votes on [a] and two on [b]. *)
Definition tieRoom : Doc :=
  votedAndConfirmed [("a", "b"); ("b", "a"); ("c", "a"); ("d", "b")]
    (joinedAt 10 ["a"; "b"; "c"; "d"] (api.setState (votingRound ["c"]) emptyDoc)).

(** Four eligible players, three confirmed votes on the spy [c]. *)
Definition spyCaughtRoom : Doc :=
  votedAndConfirmed [("a", "c"); ("b", "c"); ("c", "a"); ("d", "c")]
    (joinedAt 10 ["a"; "b"; "c"; "d"] (api.setState (votingRound ["c"]) emptyDoc)).

(** Five players; [a] has confirmed a vote on the spy [s], and [b], [c]
    and [s] have confirmed votes on [d], who then left the room. *)
Definition targetLeftRoom : Doc :=
  removePlayerNow "d"
    (votedAndConfirmed [("a", "s"); ("b", "d"); ("c", "d"); ("s", "d")]
       (joinedAt 10 ["a"; "b"; "c"; "s"; "d"] (api.setState (votingRound ["s"]) emptyDoc))).

(** Eight players; [a] and [b] have two confirmed votes each, and [f],
    [g] and [h] have confirmed votes on [d], who then left the room. *)
Definition tieLeftRoom : Doc :=
  removePlayerNow "d"
    (votedAndConfirmed [("a", "b"); ("b", "a"); ("c", "a"); ("e", "b");
                        ("f", "d"); ("g", "d"); ("h", "d")]
       (joinedAt 10 ["a"; "b"; "c"; "d"; "e"; "f"; "g"; "h"]
          (api.setState (votingRound ["c"]) emptyDoc))).

(** A clock that reads 400 at every call: the vote window of the sample
    rooms, which ends at 500, is still open. *)
Definition at400 : nat → Z := λ _, 400.

(** ** The idle close, as the specification words it *)

(** Every field of the room state has its default value. *)
Definition isDefaultState (st : gmap string Val) : Prop :=
  ∀ k x, (k, x) ∈ DEFAULT_STATE → st !! k = Some x.

(** The room state is the default one but for [closedAt], which holds a
    time stamp. *)
Definition isDefaultStateClosed (st : gmap string Val) : Prop :=
  (∃ t, st !! "closedAt" = Some (VNum t))
  ∧ ∀ k x, (k, x) ∈ DEFAULT_STATE → k ≠ "closedAt" → st !! k = Some x.

(** A document the clean-up has reset. *)
Definition isReset (d : Doc) : Prop :=
  playersY d = ∅ ∧ isDefaultState (state (sync d))
  ∧ votesY d = ∅ ∧ joinAtY d = ∅ ∧ lastSeenY d = ∅ ∧ activityY d = ∅
  ∧ openVoteReqY d = ∅ ∧ nameClaimsY d = ∅.

(** A clock that reads 400000 at every call: more than five minutes
    after everything that happened in the sample rooms. *)
Definition at400000 : nat → Z := λ _, 400000.

(** ** Well-formed rosters *)

(** Every player record sits under its own id, as [api.addPlayer] and
    [joinNow] write it. *)
Definition wfPlayers (d : Doc) : Prop :=
  ∀ k p, playersY d !! k = Some p → pid p = k.

(** Eight players in the lobby of a room set to double-spy mode, and its
    host with a catalogue of two locations. *)
Definition doubleRoom : Doc :=
  joinedAt 10 ["a"; "b"; "c"; "d"; "e"; "f"; "g"; "h"]
    (api.setState [("hostId", VStr "a"); ("gameMode", VStr "double")] emptyDoc).

Definition hostWithCatalogue : Client :=
  mkClient "a" true EN 8
    [ mkLocation "Beach" ["Lifeguard"; "Tourist"; "Surfer"];
      mkLocation "Airport" ["Pilot"; "Passenger"] ]
    (λ _ _, 0).

(** ** Three joins under one requested name *)

(** A clock that reads 1, 2, 3, ... *)
Definition ticking : nat → Z := λ n, Z.of_nat (S n).

Definition clientOf (id : string) : Client := mkClient id true EN 8 [] (λ _ _, 0).

(** [p1], [p2] and [p3] join an empty room in turn, each asking for [name]. *)
Definition threeJoins (name : string) : World :=
  exec (joinNow "p3" name)
    (exec (joinNow "p2" name)
       (exec (joinNow "p1" name) (worldOf emptyDoc ticking draws0))).

(** The client [id] re-derives its name from the roster it sees. *)
Definition rederive (id : string) (w : World) : World :=
  exec (dedupeEffect (clientOf id) (sync (w_doc w))) w.

(** Every client does so, [p1] first. *)
Definition rederiveAll (w : World) : World :=
  rederive "p3" (rederive "p2" (rederive "p1" w)).

(** The display name of the player [id]. *)
Definition nameOf (w : World) (id : string) : option string :=
  pname <$> playersY (w_doc w) !! id.

(** ** Sequences of vote actions *)

(** A vote action of some client on the shared [votes] map. *)
Inductive Action :=
| Vote (voterId targetId : string)
| ConfirmVote (voterId : string).

Definition act (d : Doc) (a : Action) : Doc :=
  match a with
  | Vote v t => api.vote v t d
  | ConfirmVote v => api.confirmVote v d
  end.

(** The votes map used to exercise [vote_semantics]: [a] has confirmed a
    vote for [b], [c] holds an unconfirmed vote for [a]. *)
Definition sampleVotes : Doc :=
  onVotes (λ _, <["a" := VoteObj "b" (Some true)]> (<["c" := VoteObj "a" (Some false)]> ∅))
          emptyDoc.

(** ** More sample rooms *)

Definition spyClient : Client := mkClient "s" true EN 8 [] (λ _ _, 0).

(** A round in its voting phase at the beach, with [s] the spy. *)
Definition votingAtBeach : Doc :=
  api.setState [("phase", VStr "voting"); ("location", VStr "Beach");
                ("spyId", VStr "s"); ("spyIds", VArr ["s"])] emptyDoc.

(** ** The counting loops, abstractly *)

(** A counting loop: a vote that passes [ok] bumps its target. *)
Definition countLoop (ok : string * VoteVal → bool) (l : list (string * VoteVal))
    (acc : gmap string nat) : gmap string nat :=
  foldl (λ counts ve, if ok ve then bump counts (entryTarget ve.2) else counts) acc l.

(** What the loop run on everyone's confirmation lets through. *)
Definition okEveryone (v : View) (ve : string * VoteVal) : bool :=
  bool_decide (ve.1 ∈ eligibleIdsOf v)
  && truthyStr (entryTarget ve.2) && entryConfirmed ve.2.

(** What the loop run at the end of the window lets through. *)
Definition okWindow (v : View) (ve : string * VoteVal) : bool :=
  bool_decide (ve.1 ∈ eligibleIdsOf v)
  && truthyStr (entryTarget ve.2) && entryConfirmed ve.2
  && bool_decide (entryTarget ve.2 ∈ eligibleIdsOf v).

(** The number of votes of [l] that pass [ok] and name [t]. *)
Definition votesFor (ok : string * VoteVal → bool) (l : list (string * VoteVal))
    (t : string) : nat :=
  length (filter (λ ve, ok ve = true ∧ entryTarget ve.2 = t) l).

Definition countOf (counts : gmap string nat) (t : string) : nat :=
  default 0%nat (counts !! t).

(** Every count the loop stores is positive. *)
Definition positive (counts : gmap string nat) : Prop :=
  ∀ t n, counts !! t = Some n → (0 < n)%nat.

(** ** Shapes of names *)

(** Every character of [s] satisfies [f]. *)
Fixpoint allChars (f : ascii → bool) (s : string) : bool :=
  match s with
  | EmptyString => true
  | String c r => f c && allChars f r
  end.

(** No leading or trailing white space, and no white space other than
    single blanks: [prevSpace] says that the character before was a
    blank (or that the string starts here). *)
Fixpoint normalFrom (prevSpace : bool) (s : string) : bool :=
  match s with
  | EmptyString => negb prevSpace
  | String c r =>
      if isSpace c
      then bool_decide (c = " "%char) && negb prevSpace && normalFrom true r
      else normalFrom false r
  end.

Definition normal (s : string) : bool :=
  match s with
  | EmptyString => true
  | _ => normalFrom true s
  end.

(** The suffix [(i)] of a numbered name. *)
Definition suffixOf (i : nat) : string := "(" +:+ pretty i +:+ ")".

(** ** Joining, as a user sees it *)

(** The name [joinNow] starts from: [normalizeName(name) || 'Player']. *)
Definition joinBase (name : string) : string :=
  if truthyStr (normalizeName name) then normalizeName name else "Player".

(** The [i]-th name the loop of [joinNow] tries: [base], [base (2)],
    [base (3)], ... *)
Definition attemptAt (base : string) (i : nat) : string :=
  if bool_decide (i = 1%nat) then base else numbered base i.

(** The key of [attempt] is there for [id] to take: not owned, or owned
    by [id] already. *)
Definition freeFor (claims : gmap string string) (id attempt : string) : bool :=
  unowned (claims !! nameKey attempt)
  || bool_decide (claims !! nameKey attempt = Some id).

(** Every player's name is claimed, under its key, by that player. *)
Definition claimsCover (d : Doc) : Prop :=
  ∀ k p, playersY d !! k = Some p → nameClaimsY d !! nameKey (pname p) = Some k.

(** The roster and the claims agree: records sit under their own,
    non-empty, ids and every name is claimed by its bearer. *)
Definition rosterOk (d : Doc) : Prop :=
  wfPlayers d ∧ claimsCover d ∧ playersY d !! EmptyString = None.

(** A sequence of joins, each by a client [id] asking for a [name]. *)
Definition joins (js : list (string * string)) (w : World) : World :=
  foldl (λ w j, exec (joinNow j.1 j.2) w) w js.

(** ** Room ids and the countdown *)

(** The characters [/[^a-z0-9-]/g] leaves in place. *)
Definition isRoomChar (c : ascii) : bool :=
  let n := nat_of_ascii c in
  ((97 <=? n) && (n <=? 122) || (48 <=? n) && (n <=? 57) || (n =? 45))%nat.

(** [s.replace(/[^...]/g, '')] for the character class whose complement
    is [f]. *)
Fixpoint keepChars (f : ascii → bool) (s : string) : string :=
  match s with
  | EmptyString => EmptyString
  | String c r => if f c then String c (keepChars f r) else keepChars f r
  end.

(** [s.slice(0, n)] *)
Fixpoint sliceTo (n : nat) (s : string) : string :=
  match n, s with
  | S k, String c r => String c (sliceTo k r)
  | _, _ => EmptyString
  end.

(** [(input || '').toLowerCase().replace(/[^a-z0-9-]/g, '').slice(0, 40)] *)
Definition normalizeRoom (input : string) : string :=
  sliceTo 40 (keepChars isRoomChar (toLowerCase input)).

(** [if (!end) return 0; return Math.max(0, end - nowMs)] for
    [end : number | null]. *)
Definition msLeft (end_ : option Z) (nowMs : Z) : Z :=
  match end_ with
  | Some e => if truthyNum e then Z.max 0 (e - nowMs) else 0
  | None => 0
  end.


(* ===== Theorems ===== *)

(** * Properties *)

(** Unfolding one step of a handler. *)
Ltac run :=
  repeat (unfold exec, mbind, M_bind, mret, M_ret, onDoc, dateNow, randomBelow,
            getProcessedVotesForRound, setProcessedVotesForRound, setForceEnd,
            queueMicrotask, sendSystem; simpl).

(** The state a render sees after a write. *)
Lemma sync_state_lookup (d : Doc) (k : string) (x : Val) :
  stateY d !! k = Some x → state (sync d) !! k = Some x.
Proof. intros H. unfold sync. cbn [state]. by apply lookup_union_Some_l. Qed.

Lemma exec_bind {A B} (m : M A) (f : A → M B) (w : World) :
  exec (m ≫= f) w = exec (f (m w).1) (m w).2.
Proof. unfold exec, mbind, M_bind. by destruct (m w). Qed.

Module Votes.

Lemma confirmed_entry (e : VoteVal) :
  entryConfirmed e = true → e = VoteObj (entryTarget e) (Some true).
Proof. destruct e as [s|t [[]|]]; simpl; congruence. Qed.

Lemma act_keeps_confirmed (a : Action) (d : Doc) (v : string) (e : VoteVal) :
  votesY d !! v = Some e → entryConfirmed e = true →
  votesY (act d a) !! v = Some e.
Proof.
  intros Hv Hc. pose proof (confirmed_entry e Hc) as He.
  destruct a as [u t|u]; simpl.
  - unfold api.vote. destruct (decide (u = v)) as [->|Hne].
    + rewrite Hv, He. simpl. by rewrite <- He.
    + destruct (votesY d !! u) as [[s|t' [[]|]]|]; simpl; try done;
        try (destruct (bool_decide _)); simpl;
        rewrite ?lookup_delete_ne, ?lookup_insert_ne by done; done.
  - unfold api.confirmVote. destruct (decide (u = v)) as [->|Hne].
    + rewrite Hv, He. simpl. rewrite lookup_insert_eq. done.
    + destruct (votesY d !! u) as [[s|t' c]|]; simpl; try done.
      * destruct (truthyStr s); simpl; [by rewrite lookup_insert_ne|done].
      * by rewrite lookup_insert_ne.
Qed.

(** C6. For a voter [v] and a target [t]: with no recorded vote, [vote]
    records an unconfirmed vote for [t]; with an unconfirmed vote for
    [t], it deletes the entry; with an unconfirmed vote for someone
    else, it replaces it by an unconfirmed vote for [t]; and a confirmed
    entry is left as it is by that call ([vote] returns the document
    unchanged) and by every later sequence of vote and confirm actions
    of any clients. *)
Theorem vote_semantics (v t : string) (d : Doc) :
  (votesY d !! v = None →
     votesY (api.vote v t d) !! v = Some (VoteObj t (Some false)))
  ∧ (∀ e, votesY d !! v = Some e → entryConfirmed e = false →
       entryTarget e = t → votesY (api.vote v t d) !! v = None)
  ∧ (∀ e, votesY d !! v = Some e → entryConfirmed e = false →
       entryTarget e ≠ t →
       votesY (api.vote v t d) !! v = Some (VoteObj t (Some false)))
  ∧ (∀ e, votesY d !! v = Some e → entryConfirmed e = true →
       api.vote v t d = d
       ∧ ∀ later : list Action, votesY (foldl act d later) !! v = Some e).
Proof.
  repeat split.
  - intros Hv. unfold api.vote. rewrite Hv. simpl. apply lookup_insert_eq.
  - intros e Hv Hc Ht. unfold api.vote. rewrite Hv.
    destruct e as [s|t' c]; simpl in *; subst; rewrite ?Hc;
      rewrite bool_decide_eq_true_2 by done; simpl; apply lookup_delete_eq.
  - intros e Hv Hc Ht. unfold api.vote. rewrite Hv.
    destruct e as [s|t' c]; simpl in *; rewrite ?Hc;
      rewrite bool_decide_eq_false_2 by congruence; simpl; apply lookup_insert_eq.
  - unfold api.vote. rewrite H. destruct e as [s|t' c]; simpl in *; [done|].
    by rewrite H0.
  - intros later. revert d H. induction later as [|a later IH]; intros d Hv; simpl.
    + done.
    + apply IH. by apply act_keeps_confirmed.
Qed.

Lemma vote_semantics_witness :
  votesY (api.vote "d" "a" sampleVotes) !! "d" = Some (VoteObj "a" (Some false))
  ∧ votesY (api.vote "c" "a" sampleVotes) !! "c" = None
  ∧ votesY (api.vote "c" "b" sampleVotes) !! "c" = Some (VoteObj "b" (Some false))
  ∧ votesY (foldl act sampleVotes [Vote "a" "c"; ConfirmVote "a"; Vote "a" "b"]) !! "a"
    = Some (VoteObj "b" (Some true)).
Proof.
  split; [|split; [|split]].
  - apply (proj1 (vote_semantics "d" "a" sampleVotes)). reflexivity.
  - apply (proj1 (proj2 (vote_semantics "c" "a" sampleVotes)) (VoteObj "a" (Some false)));
      reflexivity.
  - apply (proj1 (proj2 (proj2 (vote_semantics "c" "b" sampleVotes)))
             (VoteObj "a" (Some false))); [reflexivity|reflexivity|discriminate].
  - apply (proj2 (proj2 (proj2 (vote_semantics "a" "b" sampleVotes)))
             (VoteObj "b" (Some true))); reflexivity.
Defined.

(** C10. Confirming for a voter with no recorded vote leaves the whole
    document as it was: a confirmation is only ever written over an
    entry that exists. *)
Theorem confirmVote_without_vote (v : string) (d : Doc) :
  votesY d !! v = None → api.confirmVote v d = d.
Proof. intros H. unfold api.confirmVote. by rewrite H. Qed.

Lemma confirmVote_without_vote_witness :
  api.confirmVote "d" sampleVotes = sampleVotes.
Proof. apply (confirmVote_without_vote "d" sampleVotes). reflexivity. Defined.

End Votes.

Module SpyGuess.

Lemma locationIs_true (v : View) (pickName : string) :
  locationIs v pickName = true ↔ state v !! "location" = Some (VStr pickName).
Proof.
  unfold locationIs. destruct (state v !! "location") as [[| |l| |]|]; try (split; done).
  rewrite bool_decide_eq_true. split; congruence.
Qed.

Lemma setState_revealed_lookup (d : Doc) (x y : Val) :
  let d' := api.setState [("phase", VStr "revealed"); ("winner", x); ("winReason", y)] d in
  stateY d' !! "phase" = Some (VStr "revealed")
  ∧ stateY d' !! "winner" = Some x
  ∧ stateY d' !! "winReason" = Some y.
Proof. simpl. by rewrite !lookup_insert. Qed.

(** C2. A guess handled while the snapshot's phase is voting or
    tie-guess, on a client that is one of the spies, ends the round at
    once: the phase read after the call is revealed, the winner is the
    spy when the guessed string is exactly the round's location and the
    civilians for any other string.  On a client that is not a spy, or
    in any other phase, the call leaves the world as it was. *)
Theorem spy_guess_decides (c : Client) (v : View) (pickName : string) (w : World) :
  let w' := exec (handleSpyPickWin c v pickName) w in
  let after := state (sync (w_doc w')) in
  (isSpy c v = true →
   phaseIs v "voting" = true ∨ phaseIs v "tie-guess" = true →
     after !! "phase" = Some (VStr "revealed")
     ∧ (state v !! "location" = Some (VStr pickName) →
          after !! "winner" = Some (VStr "spy"))
     ∧ (state v !! "location" ≠ Some (VStr pickName) →
          after !! "winner" = Some (VStr "civ")))
  ∧ (isSpy c v = false
     ∨ (phaseIs v "voting" = false ∧ phaseIs v "tie-guess" = false) →
     w' = w).
Proof.
  cbv zeta. split.
  - intros Hspy Hph.
    pose proof (locationIs_true v pickName) as Hloc.
    assert (E : ∃ reason,
      stateY (w_doc (exec (handleSpyPickWin c v pickName) w))
      = stateY (api.setState
          [("phase", VStr "revealed");
           ("winner", winnerVal (if locationIs v pickName then spy else civ));
           ("winReason", VStr reason)] (w_doc w))).
    { unfold handleSpyPickWin. rewrite Hspy. cbn [negb].
      destruct (phaseIs v "tie-guess") eqn:Htie.
      - rewrite orb_true_r. cbn [negb]. eexists. rewrite exec_bind. reflexivity.
      - destruct Hph as [Hvote|?]; [|done]. rewrite Hvote. cbn [orb negb].
        eexists. rewrite exec_bind. reflexivity. }
    destruct E as [reason E].
    destruct (setState_revealed_lookup (w_doc w)
                (winnerVal (if locationIs v pickName then spy else civ)) (VStr reason))
      as (Hp & Hw & _).
    rewrite <- E in Hp, Hw.
    split; [by apply sync_state_lookup|]. split.
    + intros Hl. apply Hloc in Hl. rewrite Hl in Hw. by apply sync_state_lookup.
    + intros Hl. destruct (locationIs v pickName) eqn:Hb.
      * exfalso. apply Hl. by apply Hloc.
      * by apply sync_state_lookup.
  - intros [Hspy|[Hv Ht]]; unfold handleSpyPickWin.
    + rewrite Hspy. reflexivity.
    + rewrite Hv, Ht. destruct (isSpy c v); reflexivity.
Qed.

Lemma spy_guess_decides_witness :
  state (sync (w_doc (exec (handleSpyPickWin spyClient
                              (sync votingAtBeach) "Beach")
                           (worldOf votingAtBeach (λ _, 1000) (λ _, 0%nat)))))
    !! "winner" = Some (VStr "spy").
Proof.
  apply (proj1 (spy_guess_decides spyClient (sync votingAtBeach) "Beach"
                  (worldOf votingAtBeach (λ _, 1000) (λ _, 0%nat)))).
  - reflexivity.
  - left. reflexivity.
  - reflexivity.
Defined.

End SpyGuess.

Module Tally.

Lemma foldl_ext_all {A B} (f g : A → B → A) (l : list B) (a : A) :
  (∀ x y, f x y = g x y) → foldl f a l = foldl g a l.
Proof. intros E. revert a. induction l as [|y l IH]; intros a; simpl; [done|]. by rewrite E, IH. Qed.

Lemma countsEveryoneConfirmed_loop (v : View) :
  countsEveryoneConfirmed v = countLoop (okEveryone v) (map_to_list (votes v)) ∅.
Proof.
  unfold countsEveryoneConfirmed, countLoop. apply foldl_ext_all. intros counts ve.
  unfold okEveryone.
  destruct (bool_decide (ve.1 ∈ eligibleIdsOf v)), (truthyStr (entryTarget ve.2)),
    (entryConfirmed ve.2); reflexivity.
Qed.

Lemma countsWindowElapsed_loop (v : View) :
  countsWindowElapsed v = countLoop (okWindow v) (map_to_list (votes v)) ∅.
Proof.
  unfold countsWindowElapsed, countLoop. apply foldl_ext_all. intros counts ve.
  unfold okWindow.
  destruct (bool_decide (ve.1 ∈ eligibleIdsOf v)), (truthyStr (entryTarget ve.2)),
    (entryConfirmed ve.2), (bool_decide (entryTarget ve.2 ∈ eligibleIdsOf v)); reflexivity.
Qed.

Lemma countOf_bump (counts : gmap string nat) (t u : string) :
  countOf (bump counts u) t
  = (countOf counts t + if bool_decide (u = t) then 1 else 0)%nat.
Proof.
  unfold countOf, bump. case_bool_decide as E.
  - subst. by rewrite lookup_insert_eq.
  - rewrite lookup_insert_ne by done. lia.
Qed.

Lemma countLoop_countOf ok l acc t :
  countOf (countLoop ok l acc) t = (countOf acc t + votesFor ok l t)%nat.
Proof.
  unfold countLoop, votesFor. revert acc.
  induction l as [|ve l IH]; intros acc; simpl; [lia|].
  rewrite IH. rewrite filter_cons. destruct (ok ve) eqn:Hok.
  - rewrite countOf_bump. case_bool_decide as E.
    + rewrite decide_True by done. simpl. lia.
    + rewrite decide_False by (intros [_ ?]; done). lia.
  - rewrite decide_False by (intros [? _]; done). lia.
Qed.

Lemma countLoop_positive ok l acc : positive acc → positive (countLoop ok l acc).
Proof.
  unfold countLoop. revert acc.
  induction l as [|ve l IH]; intros acc Hacc; simpl; [done|].
  apply IH. destruct (ok ve); [|done].
  intros t n. unfold bump. destruct (decide (entryTarget ve.2 = t)) as [->|Hne].
  - rewrite lookup_insert_eq. intros [= <-]. lia.
  - rewrite lookup_insert_ne by done. apply Hacc.
Qed.

Lemma loop_lookup ok l t n :
  countLoop ok l ∅ !! t = Some n ↔ (n = votesFor ok l t ∧ (0 < n)%nat).
Proof.
  pose proof (countLoop_countOf ok l ∅ t) as Hc.
  pose proof (countLoop_positive ok l ∅) as Hp.
  unfold countOf in Hc. rewrite lookup_empty in Hc. simpl in Hc.
  split.
  - intros H. rewrite H in Hc. simpl in Hc. split; [done|].
    eapply Hp; [|done]. intros ??. by rewrite lookup_empty.
  - intros [-> Hpos]. destruct (countLoop ok l ∅ !! t) as [m|]; simpl in Hc; [by subst|lia].
Qed.

(** ** Maximum, top targets and ties of a table of positive counts *)

Lemma maxOf_empty : maxOf ∅ = 0%nat.
Proof. unfold maxOf. by rewrite map_to_list_empty. Qed.

Lemma maxOf_nonempty (counts : gmap string nat) :
  counts ≠ ∅ → maxOf counts = max_list (map_to_list counts).*2.
Proof.
  intros Hne. unfold maxOf. rewrite bool_decide_eq_false_2; [done|].
  rewrite length_fmap, length_map_to_list. by apply map_size_non_empty_iff.
Qed.

Lemma maxOf_ge (counts : gmap string nat) t n :
  counts !! t = Some n → (n ≤ maxOf counts)%nat.
Proof.
  intros H. rewrite maxOf_nonempty.
  - apply max_list_elem_of_le. apply list_elem_of_fmap. exists (t, n).
    split; [done|]. by apply elem_of_map_to_list.
  - intros ->. by rewrite lookup_empty in H.
Qed.

Lemma maxOf_attained (counts : gmap string nat) :
  counts ≠ ∅ → ∃ t, counts !! t = Some (maxOf counts).
Proof.
  intros Hne. rewrite maxOf_nonempty by done.
  assert (Hv : (map_to_list counts).*2 ≠ []).
  { intros E. apply fmap_nil_inv in E. by apply map_to_list_empty_iff in E. }
  apply max_list_elem_of in Hv. apply list_elem_of_fmap in Hv as [[t n] [E Hin]].
  exists t. simpl in E. rewrite E. by apply elem_of_map_to_list.
Qed.

Lemma elem_of_topTargetsOf (counts : gmap string nat) t :
  t ∈ topTargetsOf counts ↔ counts !! t = Some (maxOf counts).
Proof.
  unfold topTargetsOf. rewrite list_elem_of_fmap. split.
  - intros [[u n] [-> Hin]]. apply list_elem_of_filter in Hin as [E Hin]. simpl in *.
    apply elem_of_map_to_list in Hin. by rewrite <- E.
  - intros H. exists (t, maxOf counts). split; [done|].
    apply list_elem_of_filter. split; [done|]. by apply elem_of_map_to_list.
Qed.

Lemma NoDup_topTargetsOf (counts : gmap string nat) : NoDup (topTargetsOf counts).
Proof.
  unfold topTargetsOf. eapply sublist_NoDup; [apply (NoDup_fst_map_to_list counts)|].
  apply fmap_sublist, sublist_filter.
Qed.

End Tally.

Module TallyFacts.
Import Tally.

Lemma votesFor_window (v : View) t :
  votesFor (okWindow v) (map_to_list (votes v)) t = tally v t.
Proof.
  unfold votesFor, tally. f_equal. apply list_filter_iff. intros [u e]. simpl.
  unfold okWindow, truthyStr. simpl.
  rewrite !andb_true_iff, !bool_decide_eq_true, negb_true_iff, bool_decide_eq_false.
  split.
  - intros [[[[? ?] ?] ?] <-]. done.
  - intros (? & ? & <- & ? & ?). done.
Qed.

Section table.
#[local] Set Warnings "-clear-no-such-hyp".
(** A table the counting loop has built, and the count it stands for. *)
Context (counts : gmap string nat) (cnt : string → nat).
Hypothesis table : ∀ t n, counts !! t = Some n ↔ (n = cnt t ∧ (0 < n)%nat).

Lemma table_cnt_le t : (cnt t ≤ maxOf counts)%nat.
Proof.
  destruct (decide (0 < cnt t)%nat) as [Hpos|]; [|lia].
  apply (maxOf_ge counts t). by apply table.
Qed.

Lemma table_empty : counts = ∅ → ∀ t, cnt t = 0%nat.
Proof.
  intros -> t. destruct (decide (0 < cnt t)%nat) as [Hpos|]; [|lia].
  assert (H : (∅ : gmap string nat) !! t = Some (cnt t)) by by apply table.
  by rewrite lookup_empty in H.
Qed.

Lemma table_top t : t ∈ topTargetsOf counts ↔ (cnt t = maxOf counts ∧ (0 < cnt t)%nat).
Proof.
  rewrite elem_of_topTargetsOf, table. split; intros [E ?]; split; congruence.
Qed.

Lemma isTieOf_tied : isTieOf counts = true ↔ tied cnt.
Proof.
  unfold isTieOf. rewrite andb_true_iff, Nat.leb_le, Nat.ltb_lt. split.
  - intros [Hlen Hmax].
    pose proof (NoDup_topTargetsOf counts) as Hnd.
    destruct (topTargetsOf counts) as [|a [|b l]] eqn:E; simpl in Hlen; try lia.
    assert (Ha : a ∈ topTargetsOf counts) by (rewrite E; set_solver).
    assert (Hb : b ∈ topTargetsOf counts) by (rewrite E; set_solver).
    apply table_top in Ha as [Ha Hpa]. apply table_top in Hb as [Hb Hpb].
    exists a, b. repeat split.
    + intros ->. apply NoDup_cons in Hnd as [Hn _]. apply Hn. set_solver.
    + congruence.
    + done.
    + intros t. rewrite Ha. apply table_cnt_le.
  - intros (a & b & Hab & Heq & Hpos & Hmax).
    assert (Hm : cnt a = maxOf counts).
    { apply Nat.le_antisymm; [apply table_cnt_le|].
      destruct (decide (counts = ∅)) as [->|Hne]; [rewrite maxOf_empty; lia|].
      destruct (maxOf_attained counts Hne) as [t Ht]. apply table in Ht as [-> _].
      apply Hmax. }
    assert (Ha : a ∈ topTargetsOf counts) by (apply table_top; done).
    assert (Hb : b ∈ topTargetsOf counts) by (apply table_top; split; congruence).
    split; [|lia].
    pose proof (NoDup_topTargetsOf counts) as Hnd.
    destruct (topTargetsOf counts) as [|x [|y l]]; simpl; try lia.
    + set_solver.
    + set_solver.
Qed.

(** Without a tie the top targets are none (nothing was counted) or
    exactly the one target that has the highest count. *)
Lemma no_tie_top :
  isTieOf counts = false →
  (topTargetsOf counts = [] ∧ ∀ t, cnt t = 0%nat)
  ∨ ∃ t, topTargetsOf counts = [t] ∧ singleTop cnt t.
Proof.
  intros Hno. destruct (decide (counts = ∅)) as [Hemp|Hne].
  - left. split; [|by apply table_empty].
    subst. unfold topTargetsOf. by rewrite map_to_list_empty.
  - right. destruct (maxOf_attained counts Hne) as [t Ht].
    pose proof Ht as Ht'. apply table in Ht' as [Hmt Hpos].
    assert (Hin : t ∈ topTargetsOf counts) by by apply elem_of_topTargetsOf.
    unfold isTieOf in Hno. apply andb_false_iff in Hno as [Hlen|Hmax].
    + apply Nat.leb_gt in Hlen.
      destruct (topTargetsOf counts) as [|x [|y l]] eqn:E; simpl in Hlen; try lia.
      * set_solver.
      * assert (x = t) as -> by set_solver. exists t. split; [done|].
        split; [lia|]. intros u Hu.
        pose proof (table_cnt_le u) as Hle.
        destruct (decide (cnt u = maxOf counts)) as [Heq|]; [|lia].
        assert (Hux : u ∈ topTargetsOf counts) by (apply table_top; split; lia).
        rewrite E in Hux. set_solver.
    + apply Nat.ltb_ge in Hmax. lia.
Qed.
End table.

(** The table the window's loop builds holds the tally. *)
Lemma window_table (v : View) t n :
  countsWindowElapsed v !! t = Some n ↔ (n = tally v t ∧ (0 < n)%nat).
Proof. by rewrite countsWindowElapsed_loop, loop_lookup, votesFor_window. Qed.

Lemma filter_none {A} (P : A → Prop) `{!∀ x, Decision (P x)} (l : list A) :
  (∀ x, ¬ P x) → filter P l = [].
Proof.
  intros Hno. induction l as [|x l IH]; [done|].
  rewrite filter_cons, decide_False by apply Hno. done.
Qed.

Lemma tally_empty_id (v : View) : tally v "" = 0%nat.
Proof. unfold tally. rewrite filter_none; [done|]. by intros ? (_ & _ & _ & ? & _). Qed.

Lemma foldl_ext_in {A B} (f g : A → B → A) (l : list B) (a : A) :
  (∀ x y, y ∈ l → f x y = g x y) → foldl f a l = foldl g a l.
Proof.
  revert a. induction l as [|y l IH]; intros a E; cbn [foldl]; [done|].
  rewrite E by apply list_elem_of_here.
  apply IH. intros x z Hz. apply E. by apply list_elem_of_further.
Qed.

(** As long as nobody who is voted for has left, the loop run on
    everyone's confirmation builds the table the window's loop builds. *)
Lemma counts_agree (v : View) :
  targetsPresent v → countsEveryoneConfirmed v = countsWindowElapsed v.
Proof.
  intros Hp. rewrite countsEveryoneConfirmed_loop, countsWindowElapsed_loop.
  unfold countLoop. apply foldl_ext_in. intros counts [u e] Hin.
  apply elem_of_map_to_list in Hin. unfold okWindow, okEveryone. cbn [fst snd].
  destruct (bool_decide (u ∈ eligibleIdsOf v)) eqn:Hu; [|done].
  destruct (truthyStr (entryTarget e)) eqn:Ht; [|done].
  destruct (entryConfirmed e) eqn:Hc; [|done].
  rewrite bool_decide_eq_true_2; [done|].
  apply (Hp u e); [done|by apply bool_decide_eq_true in Hu|done|].
  unfold truthyStr in Ht. by apply negb_true_iff, bool_decide_eq_false in Ht.
Qed.

(** A check of [targetsPresent] that can be evaluated. *)
Lemma targetsPresent_check (v : View) :
  forallb (λ ve, negb (okEveryone v ve) || bool_decide (entryTarget ve.2 ∈ eligibleIdsOf v))
          (map_to_list (votes v)) = true →
  targetsPresent v.
Proof.
  intros Hall u e Hv Hu Hc Ht.
  rewrite forallb_forall in Hall.
  specialize (Hall (u, e)). cbn [fst snd] in Hall.
  assert (Hin : In (u, e) (map_to_list (votes v))).
  { apply list_elem_of_In. by apply elem_of_map_to_list. }
  apply Hall in Hin. apply orb_true_iff in Hin as [Hno|Hyes].
  - exfalso. apply negb_true_iff in Hno. unfold okEveryone, truthyStr in Hno.
    cbn [fst snd] in Hno. rewrite Hc in Hno.
    rewrite bool_decide_eq_true_2 in Hno by done.
    rewrite (bool_decide_eq_false_2 (entryTarget e = "")) in Hno by done.
    discriminate Hno.
  - by apply bool_decide_eq_true in Hyes.
Qed.

End TallyFacts.

Module Resolve.
Import Tally TallyFacts.

(** Posting to the chat leaves the [state] map alone. *)
Lemma sendSystem_state (c : Client) (text : string) (w : World) :
  stateY (w_doc (exec (sendSystem c text) w)) = stateY (w_doc w).
Proof. reflexivity. Qed.

Lemma postVoteSummaryChat_state c v targetIds isTie winner w :
  stateY (w_doc (exec (postVoteSummaryChat c v targetIds isTie winner) w))
  = stateY (w_doc w).
Proof.
  unfold postVoteSummaryChat. rewrite exec_bind.
  destruct isTie; [reflexivity|]. destruct winner as [[]|]; reflexivity.
Qed.

Lemma enterTieGuess_state (w : World) :
  let st := stateY (w_doc (exec enterTieGuess w)) in
  st !! "phase" = Some (VStr "tie-guess")
  ∧ st !! "tieGuessEndsAt" = Some (VNum (w_clock w (w_reads w) + 20000)).
Proof. simpl. by rewrite !lookup_insert. Qed.

(** The outcome the winner branch computes from a table without a tie. *)
Lemma hit_of_table (v : View) (counts : gmap string nat) (cnt : string → nat) :
  (∀ t n, counts !! t = Some n ↔ (n = cnt t ∧ (0 < n)%nat)) →
  cnt "" = 0%nat →
  isTieOf counts = false →
  let hit := isSpyHitOf v (guessedIdOf (topTargetsOf counts)) in
  ((∀ t, cnt t = 0%nat) ∨ ∃ t, singleTop cnt t)
  ∧ ((∀ t, cnt t = 0%nat) → hit = false)
  ∧ (∀ t, singleTop cnt t → hit = includes (spies v) t).
Proof.
  intros Htab Hemp Hno. simpl.
  destruct (no_tie_top counts cnt Htab Hno) as [[-> Hz]|(t0 & -> & Htop)].
  - split; [by left|]. split; [done|].
    intros t [Hpos _]. rewrite Hz in Hpos. lia.
  - assert (Hne : t0 ≠ "").
    { intros ->. destruct Htop as [Hpos _]. lia. }
    assert (Hg : guessedIdOf [t0] = Some t0).
    { unfold guessedIdOf, truthyStr. simpl. by rewrite bool_decide_eq_false_2. }
    rewrite Hg. simpl.
    split; [right; by exists t0|]. split.
    + intros Hz. destruct Htop as [Hpos _]. rewrite Hz in Hpos. lia.
    + intros t Ht. destruct (decide (t = t0)) as [->|Hd]; [done|].
      destruct Htop as [_ H0], Ht as [_ H1].
      specialize (H0 t Hd). specialize (H1 t0 (not_eq_sym Hd)). lia.
Qed.

(** The state written by the winner branch. *)
Lemma reveal_state (d : Doc) (hit : bool) (l : Lang) :
  let st := stateY (api.setState
              [("phase", VStr "revealed");
               ("winner", winnerVal (if hit then civ else spy));
               ("winReason", VStr (voteReason l hit))] d) in
  st !! "phase" = Some (VStr "revealed")
  ∧ st !! "winReason" = Some (VStr (voteReason l hit))
  ∧ st !! "winner" = Some (VStr (if hit then "civ" else "spy")).
Proof. simpl. rewrite !lookup_insert. simpl. by destruct hit. Qed.

Lemma everyone_runs (c : Client) (v : View) (w : World) :
  resolvesByConfirmation c v w →
  stateY (w_doc (exec (everyoneConfirmedEffect c v) w))
  = let counts := countsEveryoneConfirmed v in
    if isTieOf counts then stateY (w_doc (exec enterTieGuess w))
    else stateY (api.setState
           [("phase", VStr "revealed");
            ("winner", winnerVal
               (if isSpyHitOf v (guessedIdOf (topTargetsOf counts)) then civ else spy));
            ("winReason", VStr (voteReason (lang c)
               (isSpyHitOf v (guessedIdOf (topTargetsOf counts)))))] (w_doc w)).
Proof.
  intros (Hh & Hp & He & Hr). unfold everyoneConfirmedEffect.
  rewrite Hh, Hp, He. simpl.
  rewrite exec_bind. unfold getProcessedVotesForRound at 1. simpl.
  rewrite bool_decide_eq_false_2 by done.
  rewrite exec_bind. destruct (isTieOf (countsEveryoneConfirmed v)).
  - rewrite exec_bind, postVoteSummaryChat_state. reflexivity.
  - rewrite exec_bind, postVoteSummaryChat_state. reflexivity.
Qed.

Lemma window_runs (c : Client) (v : View) (w : World) :
  resolvesByWindow c v w →
  stateY (w_doc (exec (voteWindowElapsedEffect c v) w))
  = let counts := countsWindowElapsed v in
    if isTieOf counts then stateY (w_doc (exec enterTieGuess (dateNow w).2))
    else stateY (api.setState
           [("phase", VStr "revealed");
            ("winner", winnerVal
               (if isSpyHitOf v (guessedIdOf (topTargetsOf counts)) then civ else spy));
            ("winReason", VStr (voteReason (lang c)
               (isSpyHitOf v (guessedIdOf (topTargetsOf counts)))))] (w_doc w)).
Proof.
  intros (Hh & Hp & Hw & Hc). unfold voteWindowElapsedEffect.
  rewrite Hh, Hp. simpl. unfold truthyNum.
  rewrite bool_decide_eq_false_2 by done. simpl.
  rewrite exec_bind. unfold dateNow at 1. simpl.
  rewrite bool_decide_eq_false_2 by lia.
  destruct (isTieOf (countsWindowElapsed v)).
  - rewrite exec_bind, postVoteSummaryChat_state. reflexivity.
  - rewrite exec_bind. rewrite exec_bind. reflexivity.
Qed.

(** The state the winner branch leaves, read off a table that holds the
    tally and has no tie. *)
Lemma reveal_by_table (v : View) (d : Doc) (l : Lang) (counts : gmap string nat) :
  (∀ t n, counts !! t = Some n ↔ (n = tally v t ∧ (0 < n)%nat)) →
  isTieOf counts = false →
  let hit := isSpyHitOf v (guessedIdOf (topTargetsOf counts)) in
  let st := stateY (api.setState
              [("phase", VStr "revealed");
               ("winner", winnerVal (if hit then civ else spy));
               ("winReason", VStr (voteReason l hit))] d) in
  st !! "phase" = Some (VStr "revealed")
  ∧ (∃ reason, st !! "winReason" = Some (VStr reason))
  ∧ ((∀ t, tally v t = 0%nat) ∨ ∃ t, singleTop (tally v) t)
  ∧ ((∀ t, tally v t = 0%nat) → st !! "winner" = Some (VStr "spy"))
  ∧ (∀ t, singleTop (tally v) t →
       st !! "winner" = Some (VStr (if includes (spies v) t then "civ" else "spy"))).
Proof.
  intros Htab Hf hit st.
  destruct (hit_of_table v _ _ Htab (tally_empty_id v) Hf) as (Hcases & Hzero & Hone).
  pose proof (reveal_state d hit l) as (Hp & Hr & Hw).
  fold hit in Hzero, Hone. fold st in Hp, Hr, Hw.
  split; [exact Hp|]. split; [by eexists|]. split; [exact Hcases|]. split.
  - intros Hz. rewrite Hw. by rewrite (Hzero Hz).
  - intros t Ht. rewrite Hw. by rewrite (Hone t Ht).
Qed.

(** X12. When the vote window has elapsed and two distinct targets
    share the highest count of the tally, with that count above zero,
    the phase read afterwards is tie-guess and tieGuessEndsAt is the
    clock reading taken for it plus 20000 ms. *)
Theorem window_tie_enters_tie_guess (c : Client) (v : View) (w : World) :
  resolvesByWindow c v w → tied (tally v) →
  let after := state (sync (w_doc (exec (voteWindowElapsedEffect c v) w))) in
  after !! "phase" = Some (VStr "tie-guess")
  ∧ after !! "tieGuessEndsAt" = Some (VNum (w_clock w (S (w_reads w)) + 20000)).
Proof.
  intros Hres Htie; cbv zeta.
  apply (isTieOf_tied _ _ (window_table v)) in Htie.
  split; apply sync_state_lookup; rewrite (window_runs c v w Hres); cbv zeta;
    rewrite Htie; apply (enterTieGuess_state (dateNow w).2).
Qed.

(** X14. As long as nobody who is voted for has left: when everyone has
    confirmed and two distinct targets share the highest count of the
    tally, with that count above zero, the phase read afterwards is
    tie-guess and tieGuessEndsAt is the clock reading taken for it plus
    20000 ms. *)
Theorem confirmation_tie_enters_tie_guess (c : Client) (v : View) (w : World) :
  resolvesByConfirmation c v w → targetsPresent v → tied (tally v) →
  let after := state (sync (w_doc (exec (everyoneConfirmedEffect c v) w))) in
  after !! "phase" = Some (VStr "tie-guess")
  ∧ after !! "tieGuessEndsAt" = Some (VNum (w_clock w (w_reads w) + 20000)).
Proof.
  intros Hres Hpres Htie; cbv zeta.
  apply (isTieOf_tied _ _ (window_table v)) in Htie.
  rewrite <- (counts_agree v Hpres) in Htie.
  split; apply sync_state_lookup; rewrite (everyone_runs c v w Hres); cbv zeta;
    rewrite Htie; apply enterTieGuess_state.
Qed.

(** X13. When the vote window has elapsed without a tie in the tally,
    the phase read afterwards is revealed with a reason string; either
    nothing was counted or one target alone has the highest count; the
    winner is the spy when nothing was counted, and with a single top
    target it is the civilians if that target is one of the round's
    spies and the spy otherwise. *)
Theorem window_no_tie_reveals_winner (c : Client) (v : View) (w : World) :
  resolvesByWindow c v w → ¬ tied (tally v) →
  let after := state (sync (w_doc (exec (voteWindowElapsedEffect c v) w))) in
  after !! "phase" = Some (VStr "revealed")
  ∧ (∃ reason, after !! "winReason" = Some (VStr reason))
  ∧ ((∀ t, tally v t = 0%nat) ∨ ∃ t, singleTop (tally v) t)
  ∧ ((∀ t, tally v t = 0%nat) → after !! "winner" = Some (VStr "spy"))
  ∧ (∀ t, singleTop (tally v) t →
       after !! "winner" = Some (VStr (if includes (spies v) t then "civ" else "spy"))).
Proof.
  intros Hres Hno; cbv zeta.
  assert (Hf : isTieOf (countsWindowElapsed v) = false).
  { apply not_true_is_false. intros H. by apply (isTieOf_tied _ _ (window_table v)) in H. }
  destruct (reveal_by_table v (w_doc w) (lang c) _ (window_table v) Hf)
    as (Hp & [reason Hr] & Hcases & Hzero & Hone).
  assert (E := window_runs c v w Hres). cbv zeta in E. rewrite Hf in E.
  split; [apply sync_state_lookup; by rewrite E|].
  split; [exists reason; apply sync_state_lookup; by rewrite E|].
  split; [exact Hcases|]. split.
  - intros Hz. apply sync_state_lookup. rewrite E. by apply Hzero.
  - intros t Ht. apply sync_state_lookup. rewrite E. by apply Hone.
Qed.

(** X15. As long as nobody who is voted for has left: when everyone has
    confirmed and the tally has no tie, the phase read afterwards is
    revealed with a reason string; the winner is the spy when nothing
    was counted, and with a single top target it is the civilians if
    that target is one of the round's spies and the spy otherwise. *)
Theorem confirmation_no_tie_reveals_winner (c : Client) (v : View) (w : World) :
  resolvesByConfirmation c v w → targetsPresent v → ¬ tied (tally v) →
  let after := state (sync (w_doc (exec (everyoneConfirmedEffect c v) w))) in
  after !! "phase" = Some (VStr "revealed")
  ∧ (∃ reason, after !! "winReason" = Some (VStr reason))
  ∧ ((∀ t, tally v t = 0%nat) ∨ ∃ t, singleTop (tally v) t)
  ∧ ((∀ t, tally v t = 0%nat) → after !! "winner" = Some (VStr "spy"))
  ∧ (∀ t, singleTop (tally v) t →
       after !! "winner" = Some (VStr (if includes (spies v) t then "civ" else "spy"))).
Proof.
  intros Hres Hpres Hno; cbv zeta.
  assert (Htab : ∀ t n, countsEveryoneConfirmed v !! t = Some n
                        ↔ (n = tally v t ∧ (0 < n)%nat)).
  { intros t n. rewrite (counts_agree v Hpres). apply window_table. }
  assert (Hf : isTieOf (countsEveryoneConfirmed v) = false).
  { apply not_true_is_false. intros H. by apply (isTieOf_tied _ _ Htab) in H. }
  destruct (reveal_by_table v (w_doc w) (lang c) _ Htab Hf)
    as (Hp & [reason Hr] & Hcases & Hzero & Hone).
  assert (E := everyone_runs c v w Hres). cbv zeta in E. rewrite Hf in E.
  split; [apply sync_state_lookup; by rewrite E|].
  split; [exists reason; apply sync_state_lookup; by rewrite E|].
  split; [exact Hcases|]. split.
  - intros Hz. apply sync_state_lookup. rewrite E. by apply Hzero.
  - intros t Ht. apply sync_state_lookup. rewrite E. by apply Hone.
Qed.

(** Bounding the tally of a sample room, whatever the target. *)
Ltac tally_cases :=
  unfold tally;
  let l := fresh "l" in
  let e := fresh "e" in
  set (e := eligibleIdsOf _) in *;
  set (l := map_to_list _); vm_compute in l; subst l;
  rewrite !filter_cons, filter_nil;
  repeat case_decide; cbn [length]; try lia; destruct_and?; cbn [entryTarget snd] in *;
    try congruence.

Lemma sample_tied : tied (tally (sync tieRoom)).
Proof.
  assert (Ea : tally (sync tieRoom) "a" = 2%nat) by (vm_compute; reflexivity).
  assert (Eb : tally (sync tieRoom) "b" = 2%nat) by (vm_compute; reflexivity).
  exists "a", "b". rewrite Ea, Eb. split; [done|]. split; [done|]. split; [lia|].
  intros t. tally_cases.
Qed.

Lemma sample_single_top : singleTop (tally (sync spyCaughtRoom)) "c".
Proof.
  assert (Ec : tally (sync spyCaughtRoom) "c" = 3%nat) by (vm_compute; reflexivity).
  unfold singleTop. rewrite Ec. split; [lia|].
  intros u Hu. tally_cases.
Qed.

Lemma sample_not_tied : ¬ tied (tally (sync spyCaughtRoom)).
Proof.
  intros (a & b & Hab & Heq & Hpos & Hmax).
  pose proof (Hmax "c") as Hc.
  destruct sample_single_top as [_ Hlt].
  destruct (decide (a = "c")) as [->|Ha].
  - specialize (Hlt b (not_eq_sym Hab)). lia.
  - specialize (Hlt a Ha). lia.
Qed.

Lemma sample_present_tie : targetsPresent (sync tieRoom).
Proof. apply targetsPresent_check. vm_compute. reflexivity. Qed.

Lemma sample_present_caught : targetsPresent (sync spyCaughtRoom).
Proof. apply targetsPresent_check. vm_compute. reflexivity. Qed.

Lemma sample_window (d : Doc) :
  isHost hostA (sync d) = true → phaseIs (sync d) "voting" = true →
  numOr0 (state (sync d)) "voteWindowEndsAt" = 500 →
  resolvesByWindow hostA (sync d) (worldOf d at1000 draws0).
Proof.
  intros Hh Hp Hw. split; [done|]. split; [done|]. rewrite Hw.
  split; [done|]. cbn [worldOf w_clock w_reads at1000]. unfold at1000. lia.
Qed.

Lemma window_tie_enters_tie_guess_witness :
  state (sync (w_doc (exec (voteWindowElapsedEffect hostA (sync tieRoom))
                           (worldOf tieRoom at1000 draws0)))) !! "phase"
  = Some (VStr "tie-guess")
  ∧ state (sync (w_doc (exec (voteWindowElapsedEffect hostA (sync tieRoom))
                             (worldOf tieRoom at1000 draws0)))) !! "tieGuessEndsAt"
    = Some (VNum 21000).
Proof.
  apply (window_tie_enters_tie_guess hostA (sync tieRoom) (worldOf tieRoom at1000 draws0)).
  - apply sample_window; vm_compute; reflexivity.
  - exact sample_tied.
Defined.

Lemma confirmation_tie_enters_tie_guess_witness :
  state (sync (w_doc (exec (everyoneConfirmedEffect hostA (sync tieRoom))
                           (worldOf tieRoom at1000 draws0)))) !! "phase"
  = Some (VStr "tie-guess")
  ∧ state (sync (w_doc (exec (everyoneConfirmedEffect hostA (sync tieRoom))
                             (worldOf tieRoom at1000 draws0)))) !! "tieGuessEndsAt"
    = Some (VNum 21000).
Proof.
  apply (confirmation_tie_enters_tie_guess hostA (sync tieRoom)
           (worldOf tieRoom at1000 draws0)).
  - repeat split; try (vm_compute; reflexivity). discriminate.
  - exact sample_present_tie.
  - exact sample_tied.
Defined.

Lemma window_no_tie_reveals_winner_witness :
  state (sync (w_doc (exec (voteWindowElapsedEffect hostA (sync spyCaughtRoom))
                           (worldOf spyCaughtRoom at1000 draws0)))) !! "winner"
  = Some (VStr "civ").
Proof.
  refine (proj2 (proj2 (proj2 (proj2
    (window_no_tie_reveals_winner hostA (sync spyCaughtRoom)
       (worldOf spyCaughtRoom at1000 draws0) _ sample_not_tied)))) "c" sample_single_top).
  apply sample_window; vm_compute; reflexivity.
Defined.

Lemma confirmation_no_tie_reveals_winner_witness :
  state (sync (w_doc (exec (everyoneConfirmedEffect hostA (sync spyCaughtRoom))
                           (worldOf spyCaughtRoom at1000 draws0)))) !! "winner"
  = Some (VStr "civ").
Proof.
  refine (proj2 (proj2 (proj2 (proj2
    (confirmation_no_tie_reveals_winner hostA (sync spyCaughtRoom)
       (worldOf spyCaughtRoom at1000 draws0) _ sample_present_caught sample_not_tied))))
    "c" sample_single_top).
  repeat split; try (vm_compute; reflexivity). discriminate.
Defined.

(** The tally of the room [d] has left with a tie behind. *)
Lemma tieLeft_tied : tied (tally (sync tieLeftRoom)).
Proof.
  assert (Ea : tally (sync tieLeftRoom) "a" = 2%nat) by (vm_compute; reflexivity).
  assert (Eb : tally (sync tieLeftRoom) "b" = 2%nat) by (vm_compute; reflexivity).
  assert (Hd : "d" ∉ eligibleIdsOf (sync tieLeftRoom)).
  { apply (bool_decide_eq_false_1 ("d" ∈ eligibleIdsOf (sync tieLeftRoom))).
    vm_compute. reflexivity. }
  exists "a", "b". rewrite Ea, Eb. split; [done|]. split; [done|]. split; [lia|].
  intros t. tally_cases; subst; done.
Qed.

(** The tally of the room [d] has left, with the spy alone on top. *)
Lemma targetLeft_single_top : singleTop (tally (sync targetLeftRoom)) "s".
Proof.
  assert (Es : tally (sync targetLeftRoom) "s" = 1%nat) by (vm_compute; reflexivity).
  assert (Hd : "d" ∉ eligibleIdsOf (sync targetLeftRoom)).
  { apply (bool_decide_eq_false_1 ("d" ∈ eligibleIdsOf (sync targetLeftRoom))).
    vm_compute. reflexivity. }
  unfold singleTop. rewrite Es. split; [lia|].
  intros u Hu. tally_cases; subst; done.
Qed.

(** C3, evaluated where the code departs from it.  [a] and [b] have two
    confirmed votes each and three confirmed votes name [d], who has
    left: the tally, which counts votes for eligible players only, is
    tied between [a] and [b].  All seven eligible players have
    confirmed, and the effect run on that, while the window is still
    open, counts the votes on [d], finds [d] alone on top and reveals
    the round for the spy without a tie-break: tieGuessEndsAt stays
    null.  The effect run at the end of the window, on the same
    snapshot, enters tie-guess. *)
Theorem tie_missed_when_target_left :
  let v := sync tieLeftRoom in
  let w := worldOf tieLeftRoom at400 draws0 in
  let after := state (sync (w_doc (exec (everyoneConfirmedEffect hostA v) w))) in
  resolvesByConfirmation hostA v w
  ∧ (tally v "a" = 2%nat ∧ tally v "b" = 2%nat ∧ tally v "d" = 0%nat)
  ∧ tied (tally v)
  ∧ countsEveryoneConfirmed v !! "d" = Some 3%nat
  ∧ (after !! "phase" = Some (VStr "revealed")
     ∧ after !! "winner" = Some (VStr "spy")
     ∧ after !! "tieGuessEndsAt" = Some VNull)
  ∧ state (sync (w_doc (exec (voteWindowElapsedEffect hostA v)
                           (worldOf tieLeftRoom at1000 draws0)))) !! "phase"
    = Some (VStr "tie-guess").
Proof.
  intros v w after.
  split. { repeat split; try (vm_compute; reflexivity). discriminate. }
  split. { repeat split; vm_compute; reflexivity. }
  split. { exact tieLeft_tied. }
  split. { vm_compute. reflexivity. }
  split. { repeat split; vm_compute; reflexivity. }
  vm_compute. reflexivity.
Qed.

(** C4, evaluated where the code departs from it.  The one counted vote
    names the spy [s]; three confirmed votes name [d], who has left.  In
    the tally, which counts votes for eligible players only, [s] alone
    is on top and there is no tie, so the civilians have won.  All four
    eligible players have confirmed, and the effect run on that, while
    the window is still open, counts the votes on [d] and reveals the
    round for the spy.  The effect run at the end of the window, on the
    same snapshot, reveals it for the civilians. *)
Theorem spy_on_top_escapes_when_target_left :
  let v := sync targetLeftRoom in
  let w := worldOf targetLeftRoom at400 draws0 in
  let after := state (sync (w_doc (exec (everyoneConfirmedEffect hostA v) w))) in
  resolvesByConfirmation hostA v w
  ∧ singleTop (tally v) "s"
  ∧ includes (spies v) "s" = true
  ∧ (after !! "phase" = Some (VStr "revealed")
     ∧ after !! "winner" = Some (VStr "spy"))
  ∧ state (sync (w_doc (exec (voteWindowElapsedEffect hostA v)
                           (worldOf targetLeftRoom at1000 draws0)))) !! "winner"
    = Some (VStr "civ").
Proof.
  intros v w after.
  split. { repeat split; try (vm_compute; reflexivity). discriminate. }
  split. { exact targetLeft_single_top. }
  split. { vm_compute. reflexivity. }
  split. { repeat split; vm_compute; reflexivity. }
  vm_compute. reflexivity.
Qed.

(** C1, evaluated where the code departs from it.  After [d] has left,
    the tally run on everyone's confirmation still counts the three
    confirmed votes that name [d], who is not an eligible player, and so
    declares the spy the winner; the tally run at the end of the window,
    on the same snapshot, counts none of them and declares the
    civilians, whose only counted vote names the spy [s]. *)
Theorem everyone_confirmed_counts_absent_target :
  let v := sync targetLeftRoom in
  let w := worldOf targetLeftRoom at1000 draws0 in
  bool_decide ("d" ∈ eligibleIdsOf v) = false
  ∧ everyoneConfirmed v = true
  ∧ countsEveryoneConfirmed v !! "d" = Some 3%nat
  ∧ countsWindowElapsed v !! "d" = None
  ∧ state (sync (w_doc (exec (everyoneConfirmedEffect hostA v) w))) !! "winner"
    = Some (VStr "spy")
  ∧ state (sync (w_doc (exec (voteWindowElapsedEffect hostA v) w))) !! "winner"
    = Some (VStr "civ").
Proof. vm_compute. repeat split. Qed.

(** Where the window's tally is concerned the claim holds: a vote adds
    to a count only if its voter is eligible, it is confirmed and its
    target is eligible. *)
Lemma window_counts_only_eligible (v : View) (t : string) (n : nat) :
  countsWindowElapsed v !! t = Some n →
  t ∈ eligibleIdsOf v
  ∧ n = length (filter (λ ve : string * VoteVal,
                          ve.1 ∈ eligibleIdsOf v ∧ entryConfirmed ve.2 = true
                          ∧ entryTarget ve.2 = t)
                       (map_to_list (votes v))).
Proof.
  intros H. apply window_table in H as [-> Hpos].
  unfold tally in *.
  destruct (decide (t ∈ eligibleIdsOf v ∧ t ≠ "")) as [[He Hn]|Hno].
  - split; [done|]. f_equal. apply list_filter_iff. intros ve.
    split; [intros (?&?&?&?&?)|intros (?&?&?)]; done.
  - rewrite filter_none in Hpos; [simpl in Hpos; lia|].
    intros ve (_ & _ & _ & ? & ?). by apply Hno.
Qed.

End Resolve.

Module StateFacts.

(** Writing an object whose keys are distinct: a key of the object reads
    as the object has it, any other key as before. *)
Lemma foldl_insert_lookup (partial : Obj) (m : gmap string Val) (k : string) :
  NoDup partial.*1 →
  foldl (λ acc kv, <[kv.1 := kv.2]> acc) m partial !! k
  = match list_to_map (M := gmap string Val) partial !! k with
    | Some x => Some x
    | None => m !! k
    end.
Proof.
  revert m. induction partial as [|[k' x'] l IH]; intros m Hnd.
  - cbn [foldl]. by rewrite list_to_map_nil, lookup_empty.
  - rewrite fmap_cons in Hnd. apply NoDup_cons in Hnd as [Hk' Hnd]. cbn [fst] in Hk'.
    cbn [foldl fst snd]. rewrite IH by done. rewrite list_to_map_cons.
    destruct (decide (k' = k)) as [->|Hne].
    + rewrite (not_elem_of_list_to_map_1 l k) by done. by rewrite !lookup_insert_eq.
    + rewrite !lookup_insert_ne by done. done.
Qed.

Lemma setState_lookup_in (partial : Obj) (d : Doc) (k : string) (x : Val) :
  NoDup partial.*1 → (k, x) ∈ partial → stateY (api.setState partial d) !! k = Some x.
Proof.
  intros Hnd Hin. unfold api.setState, onState. cbn [stateY].
  rewrite foldl_insert_lookup by done.
  by rewrite (elem_of_list_to_map_1 partial k x).
Qed.

Lemma setState_lookup_notin (partial : Obj) (d : Doc) (k : string) :
  NoDup partial.*1 → k ∉ partial.*1 → stateY (api.setState partial d) !! k = stateY d !! k.
Proof.
  intros Hnd Hin. unfold api.setState, onState. cbn [stateY].
  rewrite foldl_insert_lookup by done.
  by rewrite (not_elem_of_list_to_map_1 partial k).
Qed.

Lemma NoDup_DEFAULT_STATE : NoDup DEFAULT_STATE.*1.
Proof. refine (bool_decide_unpack (NoDup DEFAULT_STATE.*1) _). vm_compute. exact I. Qed.

(** Deleting every key of a map empties it. *)
Lemma foldl_delete_lookup {A} (l : list string) (m : gmap string A) (k : string) :
  foldl (λ acc k, delete k acc) m l !! k = if decide (k ∈ l) then None else m !! k.
Proof.
  revert m. induction l as [|k' l IH]; intros m; cbn [foldl].
  - rewrite decide_False; [done|]. apply not_elem_of_nil.
  - rewrite IH. destruct (decide (k ∈ l)) as [Hin|Hin].
    + rewrite decide_True; [done|]. by apply list_elem_of_further.
    + destruct (decide (k = k')) as [->|Hne].
      * rewrite lookup_delete_eq, decide_True; [done|]. apply list_elem_of_here.
      * rewrite lookup_delete_ne by done. rewrite decide_False; [done|].
        rewrite elem_of_cons. by intros [?|?].
Qed.

Lemma clearKeys_empty {A} (m : gmap string A) : clearKeys m = ∅.
Proof.
  apply map_eq. intros k. unfold clearKeys. rewrite foldl_delete_lookup, lookup_empty.
  destruct (decide _) as [|Hno]; [done|].
  destruct (m !! k) as [x|] eqn:E; [|done].
  exfalso. apply Hno. apply list_elem_of_fmap. exists (k, x). split; [done|].
  by apply elem_of_map_to_list.
Qed.

Lemma resetVotes_empty (d : Doc) : votesY (api.resetVotes d) = ∅.
Proof. apply (clearKeys_empty (votesY d)). Qed.

Lemma resetOpenVoteRequests_empty (d : Doc) :
  openVoteReqY (api.resetOpenVoteRequests d) = ∅.
Proof. apply (clearKeys_empty (openVoteReqY d)). Qed.

(** The snapshot always has the fields of [DEFAULT_STATE]. *)
Lemma sync_state_default (d : Doc) (k : string) :
  stateY d !! k = None → state (sync d) !! k = defaultState !! k.
Proof. intros H. unfold sync. cbn [state]. by apply lookup_union_r. Qed.

End StateFacts.

Module Rounds.
Import StateFacts.

(** The object [newRound] writes. *)
Lemma newRound_object (h g cr r : Val) :
  spread DEFAULT_STATE
    [("hostId", h); ("gameMode", g); ("createdAt", cr); ("roundNumber", r)]
  = [ ("phase", VStr "lobby"); ("hostId", h); ("gameMode", g); ("createdAt", cr);
      ("roundNumber", r); ("roundStartAt", VNull); ("timerEnd", VNull);
      ("voteWindowEndsAt", VNull); ("tieGuessEndsAt", VNull);
      ("voteAnnouncedRound", VNull); ("voteWindowSetRound", VNull);
      ("location", VNull); ("spyId", VNull); ("spyIds", VNull); ("roles", VRec ∅);
      ("selectedLocations", VNull); ("spyChoices", VRec ∅); ("winner", VNull);
      ("winReason", VNull); ("closedAt", VNull) ].
Proof. vm_compute. reflexivity. Qed.

Lemma field_sync (d : Doc) (k : string) :
  k ∈ DEFAULT_STATE.*1 → state (sync d) !! k = Some (field (sync d) k).
Proof.
  intros Hk. unfold field. destruct (state (sync d) !! k) as [x|] eqn:E; [done|].
  exfalso. unfold sync in E. cbn [state] in E.
  apply lookup_union_None in E as [_ E]. unfold defaultState in E.
  by apply not_elem_of_list_to_map in E.
Qed.

(** C9. On the host, a new round gives every round-scoped field of the
    room state (every field of [DEFAULT_STATE] other than hostId,
    gameMode, createdAt and roundNumber: phase, location, spy ids,
    roles, timers, vote windows, the per-round markers, winner,
    winReason, ...) its default value, leaves hostId, gameMode and
    roundNumber (and createdAt) as the snapshot had them, and empties
    the votes and the open-vote requests. *)
Theorem newRound_resets_round (c : Client) (w : World) :
  isHost c (sync (w_doc w)) = true →
  let before := state (sync (w_doc w)) in
  let w' := exec (newRound c (sync (w_doc w))) w in
  let after := state (sync (w_doc w')) in
  (∀ k x, (k, x) ∈ DEFAULT_STATE →
     k ∉ ["hostId"; "gameMode"; "createdAt"; "roundNumber"] → after !! k = Some x)
  ∧ after !! "hostId" = before !! "hostId"
  ∧ after !! "gameMode" = before !! "gameMode"
  ∧ after !! "roundNumber" = before !! "roundNumber"
  ∧ after !! "createdAt" = before !! "createdAt"
  ∧ votesY (w_doc w') = ∅
  ∧ openVoteReqY (w_doc w') = ∅.
Proof.
  intros Hhost. cbv zeta.
  set (v := sync (w_doc w)) in *.
  set (obj := [ ("phase", VStr "lobby"); ("hostId", field v "hostId");
      ("gameMode", field v "gameMode"); ("createdAt", field v "createdAt");
      ("roundNumber", field v "roundNumber"); ("roundStartAt", VNull); ("timerEnd", VNull);
      ("voteWindowEndsAt", VNull); ("tieGuessEndsAt", VNull);
      ("voteAnnouncedRound", VNull); ("voteWindowSetRound", VNull);
      ("location", VNull); ("spyId", VNull); ("spyIds", VNull); ("roles", VRec ∅);
      ("selectedLocations", VNull); ("spyChoices", VRec ∅); ("winner", VNull);
      ("winReason", VNull); ("closedAt", VNull) ] : Obj).
  assert (Hdoc : w_doc (exec (newRound c v) w)
                 = api.resetOpenVoteRequests (api.resetVotes (api.setState obj (w_doc w)))).
  { unfold newRound. rewrite Hhost. cbn [negb]. rewrite newRound_object. reflexivity. }
  assert (Hnd : NoDup obj.*1) by apply NoDup_DEFAULT_STATE.
  assert (Hst : ∀ k x, (k, x) ∈ obj →
            state (sync (w_doc (exec (newRound c v) w))) !! k = Some x).
  { intros k x Hin. apply sync_state_lookup. rewrite Hdoc.
    change (stateY (api.setState obj (w_doc w)) !! k = Some x).
    by apply setState_lookup_in. }
  repeat split.
  - intros k x Hin Hk. apply Hst.
    rewrite !elem_of_cons in Hk. unfold DEFAULT_STATE in Hin. unfold obj.
    rewrite !elem_of_cons in Hin. rewrite !elem_of_cons.
    destruct_or!; simplify_eq; tauto.
  - rewrite (field_sync (w_doc w)) by (vm_compute; set_solver). apply Hst. set_solver.
  - rewrite (field_sync (w_doc w)) by (vm_compute; set_solver). apply Hst. set_solver.
  - rewrite (field_sync (w_doc w)) by (vm_compute; set_solver). apply Hst. set_solver.
  - rewrite (field_sync (w_doc w)) by (vm_compute; set_solver). apply Hst. set_solver.
  - rewrite Hdoc. apply (clearKeys_empty (votesY (api.setState obj (w_doc w)))).
  - rewrite Hdoc. apply resetOpenVoteRequests_empty.
Qed.

Lemma newRound_resets_round_witness :
  let w := worldOf spyCaughtRoom at1000 draws0 in
  state (sync (w_doc (exec (newRound hostA (sync (w_doc w))) w))) !! "roundNumber"
  = Some (VNum 1)
  ∧ votesY (w_doc (exec (newRound hostA (sync (w_doc w))) w)) = ∅.
Proof.
  intros w.
  destruct (newRound_resets_round hostA w) as (_ & _ & _ & Hr & _ & Hv & _).
  - vm_compute. reflexivity.
  - split; [|exact Hv]. rewrite Hr. vm_compute. reflexivity.
Defined.

End Rounds.

Module IdleClose.
Import StateFacts.

(** What [api.removePlayer] does to the players and to the state. *)
Lemma removePlayerNow_players (id : string) (d : Doc) :
  playersY (removePlayerNow id d) = delete id (playersY d).
Proof.
  unfold removePlayerNow.
  destruct (playersY d !! id) as [cur|];
    repeat (case_match; cbn [playersY onState onOpenVoteReq onActivity onVotes onLastSeen
                               onJoinAt onPlayers onNameClaims]); reflexivity.
Qed.

Lemma removePlayerNow_state (id : string) (d : Doc) (k : string) :
  k ≠ "hostId" → stateY (removePlayerNow id d) !! k = stateY d !! k.
Proof.
  intros Hk. unfold removePlayerNow.
  destruct (playersY d !! id) as [cur|];
    repeat (case_match; cbn [stateY onState onOpenVoteReq onActivity onVotes onLastSeen
                               onJoinAt onPlayers onNameClaims] in * );
    rewrite ?lookup_insert_ne by done; reflexivity.
Qed.

(** The loop [for (const p of Object.keys(activity)) api.removePlayer(p)]. *)
Lemma removeAll_exec (keys : list string) (w : World) :
  exec (foldr (λ p rest, removePlayer p;; rest) (mret ()) keys) w
  = mkWorld (foldl (λ d p, removePlayerNow p d) (w_doc w) keys)
      (processedVotesForRoundRef w) (forceEndRef w) (w_clock w) (w_reads w)
      (w_random w) (w_draws w) (w_queued w + length keys).
Proof.
  revert w. induction keys as [|p keys IH]; intros w.
  - destruct w. cbn. f_equal. lia.
  - cbn [foldr foldl length]. rewrite exec_bind. rewrite IH.
    unfold removePlayer, mbind, M_bind, onDoc, queueMicrotask. cbn. f_equal. lia.
Qed.

Lemma removeAll_players (keys : list string) (d : Doc) :
  playersY (foldl (λ d p, removePlayerNow p d) d keys)
  = foldl (λ acc k, delete k acc) (playersY d) keys.
Proof.
  revert d. induction keys as [|p keys IH]; intros d; cbn [foldl]; [done|].
  by rewrite IH, removePlayerNow_players.
Qed.

Lemma removeAll_state (keys : list string) (d : Doc) (k : string) :
  k ≠ "hostId" →
  stateY (foldl (λ d p, removePlayerNow p d) d keys) !! k = stateY d !! k.
Proof.
  intros Hk. revert d. induction keys as [|p keys IH]; intros d; cbn [foldl]; [done|].
  by rewrite IH, removePlayerNow_state.
Qed.

Lemma microtask_resets (w : World) :
  playersY (w_doc w) = ∅ → isReset (w_doc (exec removePlayerMicrotask w)).
Proof.
  intros He. unfold removePlayerMicrotask, exec.
  rewrite bool_decide_eq_true_2 by (rewrite He; apply map_size_empty).
  cbn [mbind M_bind dateNow onDoc snd w_doc].
  repeat split; cbn [playersY votesY joinAtY lastSeenY activityY openVoteReqY nameClaimsY
                       api.setState onState onNameClaims onOpenVoteReq onActivity
                       onLastSeen onJoinAt onVotes];
    try apply clearKeys_empty; try done.
  intros k x Hin. apply sync_state_lookup.
  apply setState_lookup_in; [apply NoDup_DEFAULT_STATE|done].
Qed.

Lemma runQueued_resets (n : nat) (w : World) :
  playersY (w_doc w) = ∅ → (0 < n)%nat → isReset (w_doc (exec (runQueued n) w)).
Proof.
  revert w. induction n as [|n IH]; intros w He Hn; [lia|].
  cbn [runQueued]. rewrite exec_bind.
  pose proof (microtask_resets w He) as Hr.
  destruct n as [|n].
  - exact Hr.
  - apply IH; [|lia]. apply Hr.
Qed.

(** What the idle check does once its guards have passed. *)
Lemma idleClose_runs (c : Client) (v : View) (w : World) :
  connectedUI c = true → closedAtSet v = false → latestActivityOf v ≠ 0 →
  INACTIVITY_MS ≤ w_clock w (w_reads w) - latestActivityOf v →
  ∃ msg,
    exec (idleCloseEffect c v) w
    = mkWorld
        (foldl (λ d p, removePlayerNow p d)
           (api.sendChat msg
              (api.setState
                 [ ("phase", VStr "lobby");
                   ("closedAt", VNum (w_clock w (S (w_reads w))));
                   ("winner", VNull); ("winReason", VNull); ("selectedLocations", VNull);
                   ("spyChoices", VRec ∅); ("voteAnnouncedRound", VNull);
                   ("voteWindowSetRound", VNull) ] (w_doc w)))
           (map_to_list (activity v)).*1)
        (processedVotesForRoundRef w) (forceEndRef w) (w_clock w) (S (S (S (w_reads w))))
        (w_random w) (w_draws w) (w_queued w + length (map_to_list (activity v)).*1).
Proof.
  intros Hc Hcl Hl Hidle. unfold idleCloseEffect.
  rewrite Hc. cbn [negb]. rewrite bool_decide_eq_false_2 by done.
  rewrite exec_bind. unfold dateNow at 1. cbn [fst snd].
  rewrite bool_decide_eq_true_2 by done. rewrite Hcl. cbn [negb andb].
  rewrite exec_bind. unfold dateNow at 1. cbn [fst snd].
  rewrite exec_bind. rewrite exec_bind. rewrite removeAll_exec.
  eexists. reflexivity.
Qed.

(** C7, as the code has it.  When a connected client runs the idle
    check while closedAt is unset, and the latest of the activity time
    stamps, roundStartAt and createdAt is not zero and lies at least
    five minutes before the clock reading, the check sets the phase to
    lobby, marks closedAt with the clock and removes every player that
    has an activity record.  If there are players and each has an
    activity record, no player is left, and once the queued clean-up has
    run every field of the room state has its default value (closedAt
    is null again) and the votes, join, last-seen, activity, open-vote
    and name-claim maps are empty. *)
Theorem idle_close_resets_room (c : Client) (w : World) :
  let v := sync (w_doc w) in
  connectedUI c = true → closedAtSet v = false → latestActivityOf v ≠ 0 →
  INACTIVITY_MS ≤ w_clock w (w_reads w) - latestActivityOf v →
  w_queued w = O →
  let w1 := exec (idleCloseEffect c v) w in
  let w2 := exec flushMicrotasks w1 in
  state (sync (w_doc w1)) !! "phase" = Some (VStr "lobby")
  ∧ state (sync (w_doc w1)) !! "closedAt" = Some (VNum (w_clock w (S (w_reads w))))
  ∧ (∀ id, is_Some (activityY (w_doc w) !! id) → playersY (w_doc w1) !! id = None)
  ∧ (playersY (w_doc w) ≠ ∅ →
     (∀ id, is_Some (playersY (w_doc w) !! id) → is_Some (activityY (w_doc w) !! id)) →
     playersY (w_doc w1) = ∅ ∧ isReset (w_doc w2)).
Proof.
  intros v Hc Hcl Hl Hidle Hq w1 w2.
  destruct (idleClose_runs c v w Hc Hcl Hl Hidle) as [msg E].
  set (keys := (map_to_list (activity v)).*1) in *.
  assert (Hkeys : ∀ id, id ∈ keys ↔ is_Some (activityY (w_doc w) !! id)).
  { intros id. unfold keys. rewrite list_elem_of_fmap. split.
    - intros [[k x] [-> Hin]]. apply elem_of_map_to_list in Hin. by exists x.
    - intros [x Hx]. exists (id, x). split; [done|]. by apply elem_of_map_to_list. }
  assert (Hpl : ∀ id, playersY (w_doc w1) !! id
                      = if decide (id ∈ keys) then None else playersY (w_doc w) !! id).
  { intros id. unfold w1. rewrite E. cbn [w_doc].
    rewrite removeAll_players, foldl_delete_lookup. done. }
  assert (Hst : ∀ k, k ≠ "hostId" →
            stateY (w_doc w1) !! k
            = stateY (api.setState
                 [ ("phase", VStr "lobby");
                   ("closedAt", VNum (w_clock w (S (w_reads w))));
                   ("winner", VNull); ("winReason", VNull); ("selectedLocations", VNull);
                   ("spyChoices", VRec ∅); ("voteAnnouncedRound", VNull);
                   ("voteWindowSetRound", VNull) ] (w_doc w)) !! k).
  { intros k Hk. unfold w1. rewrite E. cbn [w_doc]. by rewrite removeAll_state. }
  split; [|split; [|split]].
  - apply sync_state_lookup. rewrite Hst by done. cbn. by rewrite !lookup_insert.
  - apply sync_state_lookup. rewrite Hst by done. cbn. by rewrite !lookup_insert.
  - intros id Hid. rewrite Hpl. rewrite decide_True; [done|]. by apply Hkeys.
  - intros Hne Hall.
    assert (He : playersY (w_doc w1) = ∅).
    { apply map_eq. intros id. rewrite Hpl, lookup_empty.
      destruct (decide (id ∈ keys)) as [|Hno]; [done|].
      destruct (playersY (w_doc w) !! id) eqn:Hp; [|done].
      exfalso. apply Hno, Hkeys, Hall. by rewrite Hp. }
    split; [done|].
    unfold w2, flushMicrotasks, exec.
    apply (runQueued_resets (w_queued w1)).
    + exact He.
    + unfold w1. rewrite E. cbn [w_queued]. rewrite Hq.
      assert (Hk : keys ≠ []).
      { intros Ek. apply Hne. apply map_eq. intros id. rewrite lookup_empty.
        destruct (playersY (w_doc w) !! id) eqn:Hp; [|done].
        exfalso. assert (Hin : id ∈ keys) by (apply Hkeys, Hall; by rewrite Hp).
        rewrite Ek in Hin. by apply not_elem_of_nil in Hin. }
      destruct (length keys) eqn:El; [by apply nil_length_inv in El|lia].
Qed.

Lemma idle_close_resets_room_witness :
  let w := worldOf spyCaughtRoom at400000 draws0 in
  let w1 := exec (idleCloseEffect hostA (sync (w_doc w))) w in
  playersY (w_doc w1) = ∅ ∧ isReset (w_doc (exec flushMicrotasks w1)).
Proof.
  intros w w1.
  refine (proj2 (proj2 (proj2 (idle_close_resets_room hostA w _ _ _ _ _))) _ _).
  - reflexivity.
  - vm_compute. reflexivity.
  - vm_compute. discriminate.
  - vm_compute. discriminate.
  - reflexivity.
  - intros E. apply (f_equal (λ m, m !! "a")) in E. vm_compute in E. discriminate.
  - intros id [p Hp].
    assert (Hin : id ∈ ["c"; "a"; "b"; "d"]).
    { apply elem_of_map_to_list in Hp. apply (list_elem_of_fmap_2 fst) in Hp.
      vm_compute in Hp. exact Hp. }
    rewrite !elem_of_cons in Hin. destruct_or!; subst; try (by eexists; vm_compute);
      by apply not_elem_of_nil in Hin.
Defined.

(** C7 as the specification words it fails in the sample room, idle
    for more than five minutes in the middle of round 1: right after the
    check closedAt is marked but the state is not the default one (the
    round number is still 1), and after the clean-up the state is the
    default one with closedAt null, not marked. *)
Lemma idle_close_counterexample :
  let w := worldOf spyCaughtRoom at400000 draws0 in
  let v := sync (w_doc w) in
  let w1 := exec (idleCloseEffect hostA v) w in
  let w2 := exec flushMicrotasks w1 in
  INACTIVITY_MS < at400000 O - latestActivityOf v
  ∧ ¬ isDefaultStateClosed (state (sync (w_doc w1)))
  ∧ ¬ isDefaultStateClosed (state (sync (w_doc w2))).
Proof.
  intros w v w1 w2. split; [vm_compute; reflexivity|]. split.
  - intros [_ H]. specialize (H "roundNumber" (VNum 0)).
    assert (E : state (sync (w_doc w1)) !! "roundNumber" = Some (VNum 1))
      by (vm_compute; reflexivity).
    rewrite E in H. assert (Some (VNum 1) = Some (VNum 0)) as [=].
    apply H; [|done]. unfold DEFAULT_STATE.
    repeat first [apply list_elem_of_here | apply list_elem_of_further].
  - intros [[t Ht] _].
    assert (E : state (sync (w_doc w2)) !! "closedAt" = Some VNull)
      by (vm_compute; reflexivity).
    rewrite E in Ht. discriminate Ht.
Qed.

End IdleClose.

Module StartGame.
Import StateFacts.

Lemma players_ids (d : Doc) :
  wfPlayers d → pid <$> players (sync d) = (map_to_list (playersY d)).*1.
Proof.
  intros Hwf. unfold sync. cbn [players]. rewrite <- list_fmap_compose.
  apply Forall_fmap_ext_1, Forall_forall. intros [k p] Hin%elem_of_map_to_list. cbn.
  by apply Hwf.
Qed.

Lemma players_ids_NoDup (d : Doc) : wfPlayers d → NoDup (pid <$> players (sync d)).
Proof. intros Hwf. rewrite players_ids by done. apply NoDup_fst_map_to_list. Qed.

Lemma randomOrder_perm {A} (xs : list A) (w : World) : (randomOrder xs w).1 ≡ₚ xs.
Proof.
  unfold randomOrder, mbind, M_bind, randomBelow, mret, M_ret. cbn [fst].
  destruct (permutations xs !! _) as [l|] eqn:E; cbn [default]; [|done].
  symmetry. apply permutations_Permutation. by eapply list_elem_of_lookup_2.
Qed.

Lemma random_below_lt (n : nat) (w : World) : (0 < n)%nat → ((randomBelow n w).1 < n)%nat.
Proof. intros Hn. unfold randomBelow. cbn [fst]. apply Nat.mod_upper_bound. lia. Qed.

(** The spy draw of [startGame]: in range, and two draws never agree. *)
Lemma spy_draw (double : bool) (ids : list string) (w : World) :
  NoDup ids → (3 ≤ length ids)%nat →
  let spyIds :=
    ((if double
      then i1 ← randomBelow (length ids);
           r2 ← randomBelow (length ids);
           let i2 := if bool_decide (r2 = i1) then ((i1 + 1) `mod` length ids)%nat else r2 in
           mret [ids !!! i1; ids !!! i2]
      else i ← randomBelow (length ids);
           mret [ids !!! i]) : M (list string)) w in
  (∀ s, s ∈ spyIds.1 → s ∈ ids)
  ∧ if double then length spyIds.1 = 2%nat ∧ NoDup spyIds.1 else length spyIds.1 = 1%nat.
Proof.
  intros Hnd Hlen. cbv zeta.
  assert (Hin : ∀ i, (i < length ids)%nat → ids !!! i ∈ ids).
  { intros i Hi. apply list_elem_of_lookup_total_2. done. }
  destruct double.
  - unfold mbind, M_bind, mret, M_ret.
    destruct (randomBelow (length ids) w) as [i1 w1] eqn:E1.
    destruct (randomBelow (length ids) w1) as [r2 w2] eqn:E2. cbn [fst].
    assert (H1 : (i1 < length ids)%nat).
    { pose proof (random_below_lt (length ids) w). rewrite E1 in H. apply H. lia. }
    assert (H2 : (r2 < length ids)%nat).
    { pose proof (random_below_lt (length ids) w1). rewrite E2 in H. apply H. lia. }
    set (i2 := if bool_decide (r2 = i1) then _ else r2).
    assert (Hi2 : (i2 < length ids)%nat ∧ i2 ≠ i1).
    { unfold i2. case_bool_decide as Hd.
      - split; [apply Nat.mod_upper_bound; lia|].
        destruct (decide (i1 + 1 = length ids)%nat) as [Heq|Hne].
        + rewrite Heq, Nat.Div0.mod_same. lia.
        + rewrite Nat.mod_small by lia. lia.
      - done. }
    destruct Hi2 as [Hi2 Hne].
    split.
    + intros s. rewrite !elem_of_cons. intros [->|[->|Hs]]; [by apply Hin|by apply Hin|].
      by apply not_elem_of_nil in Hs.
    + split; [done|]. apply NoDup_cons. split; [|apply NoDup_singleton].
      rewrite list_elem_of_singleton. intros Heq. apply Hne.
      eapply (NoDup_lookup ids); [done| |].
      * apply list_lookup_lookup_total_lt. exact Hi2.
      * rewrite <- Heq. by apply list_lookup_lookup_total_lt.
  - unfold mbind, M_bind, mret, M_ret.
    destruct (randomBelow (length ids) w) as [i w1] eqn:E1. cbn [fst].
    assert (H1 : (i < length ids)%nat).
    { pose proof (random_below_lt (length ids) w). rewrite E1 in H. apply H. lia. }
    split; [|done].
    intros s. rewrite !elem_of_cons. intros [->|Hs]; [by apply Hin|].
    by apply not_elem_of_nil in Hs.
Qed.

Lemma run_bind {A B} (m : M A) (f : A → M B) (w : World) :
  (m ≫= f) w = f (m w).1 (m w).2.
Proof. unfold mbind, M_bind. by destruct (m w). Qed.

(** C5. A round the host starts (at least three players, a location to
    pick from) writes as spies ids of players of the roster: exactly two,
    distinct, when the mode is double and the roster has at least eight
    players, and exactly one otherwise. *)
Theorem startGame_spies (c : Client) (w : World) :
  let v := sync (w_doc w) in
  wfPlayers (w_doc w) →
  isHost c v = true → (3 ≤ length (players v))%nat → selectedBase c v ≠ [] →
  ∃ spyIds,
    state (sync (w_doc (exec (startGame c v) w))) !! "spyIds" = Some (VArr spyIds)
    ∧ (∀ s, s ∈ spyIds → s ∈ pid <$> players v)
    ∧ if isDouble v && (8 <=? length (players v))%nat
      then length spyIds = 2%nat ∧ NoDup spyIds
      else length spyIds = 1%nat.
Proof.
  intros v Hwf Hh Hlen Hbase. unfold startGame.
  rewrite Hh. cbn [negb].
  replace (length (players v) <? 3)%nat with false by (symmetry; apply Nat.ltb_ge; lia).
  unfold exec. rewrite run_bind.
  set (poolw := (if (16 <? length (selectedBase c v))%nat
                 then randomOrder (selectedBase c v) ≫= (λ shuffled, mret (take 16 shuffled))
                 else mret (selectedBase c v)) w).
  assert (Hpool : poolw.1 ≠ []).
  { unfold poolw. destruct (16 <? length (selectedBase c v))%nat eqn:E16.
    - rewrite run_bind. cbn [mret M_ret fst].
      pose proof (randomOrder_perm (selectedBase c v) w) as Hp.
      apply Permutation_length in Hp. apply Nat.ltb_lt in E16.
      intros E. apply (f_equal length) in E. rewrite length_take, Hp in E. cbn [length] in E. lia.
    - done. }
  rewrite bool_decide_eq_false_2
    by (intros E; by apply nil_length_inv in E).
  clearbody poolw.
  rewrite run_bind. rewrite run_bind. rewrite run_bind.
  match goal with
  | |- context [(if isDouble v && _ then ?a else ?b) ?w0] =>
      assert (Hdraw := spy_draw (isDouble v && (8 <=? length (players v))%nat)
                         (pid <$> players v) w0)
  end.
  assert (Hids : NoDup (pid <$> players v)) by by apply players_ids_NoDup.
  assert (Hl : (3 ≤ length (pid <$> players v))%nat) by by rewrite length_fmap.
  specialize (Hdraw Hids Hl). cbv zeta in Hdraw.
  match type of Hdraw with
  | context [(?m ?w0).1] => destruct (m w0) as [spyIds w1]
  end.
  cbn [fst snd] in *. destruct Hdraw as [Hsub Hcount].
  exists spyIds. split; [|split; [exact Hsub|exact Hcount]].
  apply sync_state_lookup.
  rewrite run_bind.
  match goal with
  | |- context [randomOrder ?r w1] => destruct (randomOrder r w1) as [shuffledRoles w2]
  end.
  cbn [fst snd]. destruct w2 as [d2 pr2 fe2 ck2 rd2 rn2 dr2 qu2].
  unfold sendSystem.
  repeat (rewrite run_bind;
          cbn [dateNow onDoc setProcessedVotesForRound setForceEnd fst snd
               w_doc processedVotesForRoundRef forceEndRef w_clock w_reads w_random
               w_draws w_queued]).
  cbn [api.resetOpenVoteRequests api.resetVotes api.sendChat onOpenVoteReq onVotes onChat
       stateY].
  unfold api.setState, onState. cbn [stateY foldl fst snd].
  rewrite !lookup_insert_ne by done. rewrite lookup_insert_eq. done.
Qed.

Lemma wfPlayers_addPlayer (p : Player) (d : Doc) :
  wfPlayers d → wfPlayers (api.addPlayer p d).
Proof.
  intros Hwf k q. unfold api.addPlayer, onPlayers. cbn [playersY].
  destruct (decide (pid p = k)) as [<-|Hne].
  - rewrite lookup_insert_eq. by intros [= <-].
  - rewrite lookup_insert_ne by done. apply Hwf.
Qed.

Lemma wfPlayers_joinedAt (t : Z) (ids : list string) (d : Doc) :
  wfPlayers d → wfPlayers (joinedAt t ids d).
Proof.
  unfold joinedAt. revert d. induction ids as [|id ids IH]; intros d Hwf; cbn [foldl].
  - done.
  - apply IH. intros k q. apply (wfPlayers_addPlayer (mkPlayer id id) d Hwf k q).
Qed.

Lemma startGame_spies_witness :
  let w := worldOf doubleRoom at1000 draws0 in
  ∃ spyIds,
    state (sync (w_doc (exec (startGame hostWithCatalogue (sync (w_doc w))) w))) !! "spyIds"
    = Some (VArr spyIds)
    ∧ length spyIds = 2%nat ∧ NoDup spyIds.
Proof.
  intros w.
  destruct (startGame_spies hostWithCatalogue w) as (spyIds & Hs & _ & Hc).
  - apply (wfPlayers_joinedAt 10 _ _). intros k p Hp. cbn in Hp.
    by rewrite lookup_empty in Hp.
  - vm_compute. reflexivity.
  - vm_compute. lia.
  - intros E. vm_compute in E. discriminate E.
  - exists spyIds. split; [exact Hs|].
    assert (Hd : isDouble (sync (w_doc w))
                 && (8 <=? length (players (sync (w_doc w))))%nat = true)
      by (vm_compute; reflexivity).
    rewrite Hd in Hc. exact Hc.
Defined.

End StartGame.

Module NameClaims.

(** C8, evaluated where the code departs from it.  Three clients join an
    empty room in turn, each asking for the name [Bob (2)].  The joins
    number them [Bob (2)], [Bob (2) (2)] and [Bob (2) (3)].  Re-deriving
    groups by [baseName], which strips a numeric suffix that [joinNow]
    took as part of the requested name: when [p2] re-derives first it
    takes [Bob (2)], the name [p1] still bears; and once every client has
    re-derived until nothing changes, the earliest holder is called
    [Bob], the second [Bob (2)] and the third [Bob (2) (3)], so the
    numbering under the requested name has a gap and its first holder
    does not bear it. *)
Theorem suffixed_name_breaks_numbering :
  let joined := threeJoins "Bob (2)" in
  let settled := rederiveAll (rederiveAll joined) in
  (nameOf joined "p1" = Some "Bob (2)"
   ∧ nameOf joined "p2" = Some "Bob (2) (2)"
   ∧ nameOf joined "p3" = Some "Bob (2) (3)")
  ∧ (nameOf (rederive "p2" joined) "p1" = Some "Bob (2)"
     ∧ nameOf (rederive "p2" joined) "p2" = Some "Bob (2)")
  ∧ (nameOf settled "p1" = Some "Bob"
     ∧ nameOf settled "p2" = Some "Bob (2)"
     ∧ nameOf settled "p3" = Some "Bob (2) (3)")
  ∧ w_doc (rederiveAll settled) = w_doc settled.
Proof. vm_compute. repeat split. Qed.

End NameClaims.

Module NameFacts.

Lemma trimEnd_fixed_tail (c : ascii) (r : string) :
  trimEnd (String c r) = String c r → trimEnd r = r.
Proof.
  cbn [trimEnd]. destruct (trimEnd r) as [|c' r'] eqn:E.
  - destruct (isSpace c); [discriminate|]. by intros [= <-].
  - by intros [= <-].
Qed.

Lemma trimEnd_fixed_nonempty (c : ascii) (r : string) :
  isSpace c = true → trimEnd (String c r) = String c r → r ≠ EmptyString.
Proof.
  intros Hc. cbn [trimEnd]. destruct (trimEnd r) as [|c' r'] eqn:E.
  - rewrite Hc. discriminate.
  - intros [= <-]. discriminate.
Qed.

Lemma trimEnd_cons (c : ascii) (r : string) :
  trimEnd (String c r)
  = match trimEnd r with
    | EmptyString => if isSpace c then EmptyString else String c EmptyString
    | String c' r' => String c (String c' r')
    end.
Proof. cbn [trimEnd]. by destruct (trimEnd r). Qed.

Lemma trimEnd_idemp (s : string) : trimEnd (trimEnd s) = trimEnd s.
Proof.
  induction s as [|c r IH]; [done|]. rewrite (trimEnd_cons c r).
  destruct (trimEnd r) as [|c' r'] eqn:E.
  - destruct (isSpace c) eqn:Hc; [done|]. cbn [trimEnd]. by rewrite Hc.
  - rewrite (trimEnd_cons c (String c' r')). by rewrite IH.
Qed.

Lemma trimStart_head (s : string) :
  match trimStart s with
  | EmptyString => True
  | String c _ => isSpace c = false
  end.
Proof.
  induction s as [|c r IH]; [done|]. cbn [trimStart].
  destruct (isSpace c) eqn:Hc; [done|]. by rewrite Hc.
Qed.

(** Collapsing a string without trailing white space leaves a normal
    string. *)
Lemma collapse_normalFrom (u : string) (f : bool) :
  trimEnd u = u → (f = true → u ≠ EmptyString) →
  normalFrom f (collapseFrom f u) = true.
Proof.
  revert f. induction u as [|c r IH]; intros f Hfix Hne.
  - destruct f; [by destruct Hne|done].
  - pose proof (trimEnd_fixed_tail c r Hfix) as Hr.
    cbn [collapseFrom]. destruct (isSpace c) eqn:Hc.
    + pose proof (trimEnd_fixed_nonempty c r Hc Hfix) as Hrne.
      destruct f.
      * apply IH; done.
      * cbn [normalFrom]. replace (isSpace " ") with true by done.
        rewrite bool_decide_eq_true_2 by done. cbn [andb negb]. apply IH; done.
    + cbn [normalFrom]. rewrite Hc. apply IH; [done|discriminate].
Qed.

Lemma normalize_normal (s : string) : normal (normalizeName s) = true.
Proof.
  unfold normalizeName, trim.
  pose proof (trimStart_head s) as Hh. pose proof (trimEnd_idemp (trimStart s)) as Hi.
  destruct (trimStart s) as [|c r] eqn:Es; [done|].
  assert (Hu : ∃ r', trimEnd (String c r) = String c r').
  { cbn [trimEnd]. destruct (trimEnd r); [rewrite Hh|]; eauto. }
  destruct Hu as [r' Hu]. rewrite Hu in *.
  cbn [collapseFrom]. rewrite Hh. cbn [normal normalFrom]. rewrite Hh.
  apply collapse_normalFrom; [|discriminate]. by apply (trimEnd_fixed_tail c r').
Qed.

Lemma normalFrom_trimEnd (s : string) (f : bool) :
  normalFrom f s = true → trimEnd s = s.
Proof.
  revert f. induction s as [|c r IH]; intros f H; [done|].
  cbn [normalFrom] in H. cbn [trimEnd]. destruct (isSpace c) eqn:Hc.
  - apply andb_true_iff in H as [_ H]. rewrite (IH true H).
    destruct r; [discriminate H|done].
  - rewrite (IH false H). destruct r; done.
Qed.

Lemma normalFrom_collapse (s : string) (f : bool) :
  normalFrom f s = true → collapseFrom f s = s.
Proof.
  revert f. induction s as [|c r IH]; intros f H; [done|].
  cbn [normalFrom] in H. cbn [collapseFrom]. destruct (isSpace c) eqn:Hc.
  - apply andb_true_iff in H as [H H3]. apply andb_true_iff in H as [H1 H2].
    apply bool_decide_eq_true in H1 as ->. apply negb_true_iff in H2 as ->.
    by rewrite (IH true H3).
  - by rewrite (IH false H).
Qed.

Lemma normal_head (c : ascii) (r : string) :
  normal (String c r) = true → isSpace c = false ∧ normalFrom false r = true.
Proof.
  cbn [normal normalFrom]. destruct (isSpace c); [|done].
  rewrite andb_false_r. discriminate.
Qed.

(** A normal string is left as it is. *)
Lemma normalizeName_fixed (s : string) : normal s = true → normalizeName s = s.
Proof.
  intros H. destruct s as [|c r]; [done|].
  destruct (normal_head c r H) as [Hc Hr].
  unfold normalizeName, trim. cbn [trimStart]. rewrite Hc.
  rewrite (normalFrom_trimEnd (String c r) true) by done.
  cbn [collapseFrom]. rewrite Hc. by rewrite (normalFrom_collapse r false).
Qed.

(** X5. [normalizeName] returns a string with no white space at either
    end and no white space inside other than single blanks. *)
Theorem normalizeName_normal (s : string) : normal (normalizeName s) = true.
Proof. apply normalize_normal. Qed.

(** X4. Normalising a name twice is the same as normalising it once. *)
Theorem normalizeName_idemp (s : string) :
  normalizeName (normalizeName s) = normalizeName s.
Proof. apply normalizeName_fixed, normalize_normal. Qed.


(** *** Numbered names *)

Lemma append_cons (c : ascii) (r b : string) : String c r +:+ b = String c (r +:+ b).
Proof. reflexivity. Qed.

Lemma append_nil (b : string) : EmptyString +:+ b = b.
Proof. reflexivity. Qed.

Lemma normalFrom_nospace (w : string) (f : bool) :
  allChars (λ c, negb (isSpace c)) w = true → w ≠ EmptyString ∨ f = false →
  normalFrom f w = true.
Proof.
  revert f. induction w as [|c r IH]; intros f Hw Hne.
  - destruct Hne as [?| ->]; done.
  - cbn [allChars] in Hw. apply andb_true_iff in Hw as [Hc Hr].
    apply negb_true_iff in Hc. cbn [normalFrom]. rewrite Hc. apply IH; [done|by right].
Qed.

Lemma normalFrom_app_blank (b w : string) (f : bool) :
  normalFrom f b = true →
  allChars (λ c, negb (isSpace c)) w = true → w ≠ EmptyString →
  normalFrom f (b +:+ String " " w) = true.
Proof.
  intros Hb Hw Hne. revert f Hb. induction b as [|c r IH]; intros f Hb.
  - destruct f; [discriminate|]. change (normalFrom true w = true).
    apply normalFrom_nospace; [done|by left].
  - change (String c r +:+ String " " w) with (String c (r +:+ String " " w)).
    cbn [normalFrom] in *. destruct (isSpace c).
    + apply andb_true_iff in Hb as [H12 H3]. rewrite H12. cbn [andb]. by apply IH.
    + by apply IH.
Qed.

Lemma pretty_char_digit (x : N) : isDigit (pretty_N_char x) = true.
Proof. unfold pretty_N_char. by repeat case_match. Qed.

Lemma pretty_N_go_digits (x : N) (s : string) :
  allChars isDigit s = true → allChars isDigit (pretty_N_go x s) = true.
Proof.
  revert s. induction (N.lt_wf_0 x) as [x _ IH]; intros s Hs.
  destruct (decide (x = 0)%N) as [->|Hx].
  - by rewrite pretty_N_go_0.
  - rewrite pretty_N_go_step by lia. apply IH.
    + apply N.div_lt; lia.
    + cbn [allChars]. by rewrite pretty_char_digit.
Qed.

Lemma pretty_N_go_nonempty (x : N) (s : string) :
  s ≠ EmptyString → pretty_N_go x s ≠ EmptyString.
Proof.
  revert s. induction (N.lt_wf_0 x) as [x _ IH]; intros s Hs.
  destruct (decide (x = 0)%N) as [->|Hx].
  - by rewrite pretty_N_go_0.
  - rewrite pretty_N_go_step by lia. apply IH; [apply N.div_lt; lia|done].
Qed.

Lemma pretty_nat_digits (i : nat) :
  allChars isDigit (pretty i) = true ∧ pretty i ≠ EmptyString.
Proof.
  unfold pretty, pretty_nat, pretty, pretty_N. case_decide as E; [done|].
  split; [by apply pretty_N_go_digits|].
  destruct (decide (0 < N.of_nat i)%N) as [Hpos|]; [|lia].
  rewrite pretty_N_go_step by done. by apply pretty_N_go_nonempty.
Qed.

Lemma allChars_app (f : ascii → bool) (a b : string) :
  allChars f (a +:+ b) = allChars f a && allChars f b.
Proof.
  induction a as [|c r IH]; [done|]. rewrite append_cons. cbn [allChars].
  by rewrite IH, andb_assoc.
Qed.

Lemma allChars_impl (f g : ascii → bool) (s : string) :
  (∀ c, f c = true → g c = true) → allChars f s = true → allChars g s = true.
Proof.
  intros Hfg. induction s as [|c r IH]; [done|]. cbn.
  intros [Hc Hr]%andb_true_iff. by rewrite (Hfg c Hc), IH.
Qed.

Lemma digit_not_space (c : ascii) : isDigit c = true → negb (isSpace c) = true.
Proof.
  unfold isDigit, isSpace. intros H. apply andb_true_iff in H as [H1 H2].
  apply Nat.leb_le in H1, H2. apply negb_true_iff, orb_false_iff. split.
  - apply andb_false_iff. right. apply Nat.leb_gt. lia.
  - apply Nat.eqb_neq. lia.
Qed.

Lemma digit_lower (c : ascii) : isDigit c = true → lowerChar c = c.
Proof.
  unfold isDigit, lowerChar. intros H. apply andb_true_iff in H as [H1 H2].
  apply Nat.leb_le in H1, H2.
  replace (65 <=? nat_of_ascii c)%nat with false; [done|].
  symmetry. apply Nat.leb_gt. lia.
Qed.

Lemma numbered_suffix (b : string) (i : nat) :
  numbered b i = b +:+ String " " (suffixOf i).
Proof. reflexivity. Qed.

Lemma suffix_nospace (i : nat) :
  allChars (λ c, negb (isSpace c)) (suffixOf i) = true ∧ suffixOf i ≠ EmptyString.
Proof.
  split; [|done]. unfold suffixOf. rewrite append_cons, append_nil. cbn [allChars].
  rewrite allChars_app.
  destruct (pretty_nat_digits i) as [Hd _].
  by rewrite (allChars_impl _ _ _ digit_not_space Hd).
Qed.

(** Numbering a normal, non-empty name gives a normal name. *)
Lemma numbered_normal (b : string) (i : nat) :
  normal b = true → b ≠ EmptyString → normal (numbered b i) = true.
Proof.
  intros Hb Hne. rewrite numbered_suffix. destruct (suffix_nospace i) as [Hs Hn].
  destruct b as [|c r]; [done|].
  change (normalFrom true (String c r +:+ String " " (suffixOf i)) = true).
  by apply normalFrom_app_blank.
Qed.

Lemma toLowerCase_app (a b : string) :
  toLowerCase (a +:+ b) = toLowerCase a +:+ toLowerCase b.
Proof.
  induction a as [|c r IH]; [done|]. rewrite append_cons. cbn [toLowerCase].
  by rewrite IH.
Qed.

Lemma toLowerCase_digits (s : string) :
  allChars isDigit s = true → toLowerCase s = s.
Proof.
  induction s as [|c r IH]; [done|]. cbn.
  intros [Hc Hr]%andb_true_iff. by rewrite (digit_lower c Hc), IH.
Qed.

Lemma length_append (a b : string) :
  String.length (a +:+ b) = (String.length a + String.length b)%nat.
Proof.
  induction a as [|c r IH]; [done|]. rewrite append_cons. cbn [String.length].
  by rewrite IH.
Qed.

Lemma toLowerCase_length (s : string) :
  String.length (toLowerCase s) = String.length s.
Proof. induction s as [|c r IH]; [done|]. cbn. by rewrite IH. Qed.

(** The key of a numbered name: the key of the name, a blank and the
    suffix. *)
Lemma nameKey_numbered (b : string) (i : nat) :
  normal b = true → b ≠ EmptyString →
  nameKey (numbered b i) = toLowerCase b +:+ String " " (suffixOf i).
Proof.
  intros Hb Hne. unfold nameKey.
  rewrite normalizeName_fixed by by apply numbered_normal.
  rewrite numbered_suffix, toLowerCase_app. f_equal.
  cbn [toLowerCase]. f_equal.
  unfold suffixOf. rewrite append_cons, append_nil. cbn [toLowerCase].
  rewrite toLowerCase_app.
  destruct (pretty_nat_digits i) as [Hd _]. by rewrite (toLowerCase_digits _ Hd).
Qed.

Lemma append_inv_tail (a b t : string) : a +:+ t = b +:+ t → a = b.
Proof.
  intros H. apply (f_equal list_ascii_of_string) in H.
  assert (Happ : ∀ x y, list_ascii_of_string (x +:+ y)
                        = list_ascii_of_string x ++ list_ascii_of_string y).
  { intros x y. induction x as [|c r IH]; [done|].
    rewrite append_cons. cbn [list_ascii_of_string]. by rewrite IH. }
  rewrite !Happ in H. apply app_inv_tail in H.
  rewrite <- (string_of_list_ascii_of_string a), <- (string_of_list_ascii_of_string b).
  by rewrite H.
Qed.

(** Two numberings of one name have the same key only if the numbers
    are the same. *)
Lemma nameKey_numbered_inj (b : string) (i j : nat) :
  normal b = true → b ≠ EmptyString →
  nameKey (numbered b i) = nameKey (numbered b j) → i = j.
Proof.
  intros Hb Hne H. rewrite !nameKey_numbered in H by done.
  apply String.app_inj in H. injection H as H. rewrite !append_nil in H.
  apply append_inv_tail in H. by apply (inj pretty) in H.
Qed.

(** A numbered name never has the key of the bare name. *)
Lemma nameKey_numbered_bare (b : string) (i : nat) :
  normal b = true → b ≠ EmptyString → nameKey (numbered b i) ≠ nameKey b.
Proof.
  intros Hb Hne H. rewrite nameKey_numbered in H by done.
  unfold nameKey in H. rewrite normalizeName_fixed in H by done.
  apply (f_equal String.length) in H.
  rewrite length_append in H. cbn [String.length] in H. lia.
Qed.

End NameFacts.

Module JoinFacts.
Import NameFacts.

Lemma joinBase_normal (name : string) :
  normal (joinBase name) = true ∧ joinBase name ≠ EmptyString.
Proof.
  unfold joinBase, truthyStr. case_bool_decide as E; cbn [negb].
  - done.
  - split; [apply normalize_normal|done].
Qed.

Lemma attemptAt_next (base : string) (i : nat) :
  (1 ≤ i)%nat → numbered base (S i) = attemptAt base (S i).
Proof. intros Hi. unfold attemptAt. rewrite bool_decide_eq_false_2; [done|lia]. Qed.

(** The keys of the attempts are pairwise distinct. *)
Lemma attempt_keys_inj (base : string) (i j : nat) :
  normal base = true → base ≠ EmptyString → (1 ≤ i)%nat → (1 ≤ j)%nat →
  nameKey (attemptAt base i) = nameKey (attemptAt base j) → i = j.
Proof.
  intros Hb Hne Hi Hj. unfold attemptAt.
  repeat case_bool_decide; subst; try done; intros Hk.
  - symmetry in Hk. by apply nameKey_numbered_bare in Hk.
  - by apply nameKey_numbered_bare in Hk.
  - by apply (nameKey_numbered_inj base).
Qed.

(** X6. The names [joinNow] tries for a requested name, [base],
    [base (2)], [base (3)], ..., have pairwise distinct keys. *)
Theorem attempt_keys_distinct (name : string) (i j : nat) :
  (1 ≤ i)%nat → (1 ≤ j)%nat → i ≠ j →
  nameKey (attemptAt (joinBase name) i) ≠ nameKey (attemptAt (joinBase name) j).
Proof.
  intros Hi Hj Hij E. destruct (joinBase_normal name) as [Hn Hne].
  by apply Hij, (attempt_keys_inj (joinBase name)).
Qed.

Lemma attempt_keys_distinct_witness :
  bool_decide (nameKey (attemptAt (joinBase "  Bob ") 1)
               = nameKey (attemptAt (joinBase "  Bob ") 2)) = false.
Proof.
  apply bool_decide_eq_false_2, (attempt_keys_distinct "  Bob " 1 2); lia.
Defined.

(** What the loop returns. *)
Lemma claimLoop_spec (fuel : nat) (claims : gmap string string) (id base : string) (i : nat) :
  (1 ≤ i)%nat →
  match claimLoop fuel claims id base (attemptAt base i) i with
  | Some a =>
      ∃ j, (i ≤ j < i + fuel)%nat ∧ a = attemptAt base j
           ∧ freeFor claims id a = true
           ∧ ∀ k, (i ≤ k < j)%nat → freeFor claims id (attemptAt base k) = false
  | None => ∀ k, (i ≤ k < i + fuel)%nat → freeFor claims id (attemptAt base k) = false
  end.
Proof.
  revert i. induction fuel as [|fuel IH]; intros i Hi.
  - cbn [claimLoop]. intros k Hk. lia.
  - cbn [claimLoop]. fold (freeFor claims id (attemptAt base i)).
    destruct (freeFor claims id (attemptAt base i)) eqn:Hf.
    + exists i. split; [lia|]. split; [done|]. split; [done|]. intros k Hk. lia.
    + rewrite attemptAt_next by done. specialize (IH (S i) ltac:(lia)).
      destruct (claimLoop fuel claims id base (attemptAt base (S i)) (S i)) as [a|].
      * destruct IH as (j & Hj & -> & Hfree & Hbefore).
        exists j. split; [lia|]. split; [done|]. split; [done|].
        intros k Hk. destruct (decide (k = i)) as [->|]; [done|]. apply Hbefore. lia.
      * intros k Hk. destruct (decide (k = i)) as [->|]; [done|]. apply IH. lia.
Qed.

Lemma not_free_owned (claims : gmap string string) (id attempt : string) :
  freeFor claims id attempt = false → is_Some (claims !! nameKey attempt).
Proof.
  unfold freeFor, unowned. destruct (claims !! nameKey attempt); [eauto|done].
Qed.

Lemma claimLoop_ends (claims : gmap string string) (id name : string) :
  let base := joinBase name in
  ∃ j, (1 ≤ j ≤ S (size claims))%nat
       ∧ claimLoop (S (size claims)) claims id base base 1 = Some (attemptAt base j)
       ∧ freeFor claims id (attemptAt base j) = true
       ∧ ∀ k, (1 ≤ k < j)%nat → freeFor claims id (attemptAt base k) = false.
Proof.
  intros base. destruct (joinBase_normal name) as [Hn Hne]. fold base in Hn, Hne.
  pose proof (claimLoop_spec (S (size claims)) claims id base 1 ltac:(lia)) as H.
  change (attemptAt base 1) with base in H.
  destruct (claimLoop (S (size claims)) claims id base base 1) as [a|].
  - destruct H as (j & Hj & -> & Hf & Hb). exists j.
    split; [lia|]. split; [done|]. split; [done|]. exact Hb.
  - exfalso.
    set (keys := (λ k, nameKey (attemptAt base k)) <$> seq 1 (S (size claims))).
    assert (Hnd : NoDup keys).
    { apply NoDup_fmap_2_strong; [|apply NoDup_seq].
      intros i j Hi%elem_of_seq Hj%elem_of_seq. apply attempt_keys_inj; try done; lia. }
    assert (Hsub : (list_to_set keys : gset string) ⊆ dom claims).
    { intros k Hk%elem_of_list_to_set. unfold keys in Hk.
      apply list_elem_of_fmap in Hk as (j & -> & Hj%elem_of_seq).
      apply elem_of_dom, not_free_owned with id, H. lia. }
    apply subseteq_size in Hsub.
    rewrite size_list_to_set, size_dom in Hsub by done.
    unfold keys in Hsub. rewrite length_fmap, length_seq in Hsub. lia.
Qed.


(** X1. The naming loop of [joinNow] ends within one turn more than
    there are claims: it returns the first of [base], [base (2)],
    [base (3)], ... whose key is unowned or the joiner's own. *)
Theorem claimLoop_total (claims : gmap string string) (id name : string) :
  let base := joinBase name in
  ∃ j, (1 ≤ j ≤ S (size claims))%nat
       ∧ claimLoop (S (size claims)) claims id base base 1 = Some (attemptAt base j)
       ∧ freeFor claims id (attemptAt base j) = true
       ∧ ∀ k, (1 ≤ k < j)%nat → freeFor claims id (attemptAt base k) = false.
Proof. apply claimLoop_ends. Qed.

(** The document a first join leaves. *)
Lemma joinNow_new (id name : string) (w : World) :
  playersY (w_doc w) !! id = None →
  ∃ j, (1 ≤ j)%nat
    ∧ freeFor (nameClaimsY (w_doc w)) id (attemptAt (joinBase name) j) = true
    ∧ w_doc (exec (joinNow id name) w)
      = api.setJoinAt id (w_clock w (w_reads w))
          (onPlayers <[id := mkPlayer id (attemptAt (joinBase name) j)]>
             (if unowned (nameClaimsY (w_doc w) !! nameKey (attemptAt (joinBase name) j))
              then onNameClaims <[nameKey (attemptAt (joinBase name) j) := id]> (w_doc w)
              else w_doc w)).
Proof.
  intros Hnew.
  destruct (claimLoop_ends (nameClaimsY (w_doc w)) id name) as (j & Hj & Hloop & Hfree & _).
  exists j. split; [lia|]. split; [done|].
  unfold joinNow, exec. rewrite Hnew. fold (joinBase name). cbv zeta in Hloop.
  rewrite Hloop. reflexivity.
Qed.

(** The document a repeated join leaves. *)
Lemma joinNow_again (id name : string) (w : World) (self : Player) :
  playersY (w_doc w) !! id = Some self →
  let claims :=
    if bool_decide (nameClaimsY (w_doc w) !! nameKey (pname self) = Some id)
       && negb (bool_decide (nameKey (joinBase name) = nameKey (pname self)))
    then delete (nameKey (pname self)) (nameClaimsY (w_doc w))
    else nameClaimsY (w_doc w) in
  ∃ j jat, (1 ≤ j)%nat
    ∧ freeFor claims id (attemptAt (joinBase name) j) = true
    ∧ w_doc (exec (joinNow id name) w)
      = onJoinAt jat
          ((if bool_decide (pname self = attemptAt (joinBase name) j) then λ d, d
            else onPlayers <[id := mkPlayer id (attemptAt (joinBase name) j)]>)
             (onNameClaims (λ _, <[nameKey (attemptAt (joinBase name) j) := id]> claims)
                (w_doc w))).
Proof.
  intros Hself claims.
  destruct (claimLoop_ends claims id name) as (j & Hj & Hloop & Hfree & _).
  exists j.
  unfold joinNow, exec. rewrite Hself. fold (joinBase name). fold claims.
  cbv zeta in Hloop. rewrite Hloop.
  set (d2 := if bool_decide (pname self = attemptAt (joinBase name) j) then _ else _).
  destruct (truthyNum (default 0 (joinAtY d2 !! id))) eqn:Ht.
  - exists (λ m, m). split; [lia|]. split; [done|]. cbn [onDoc snd w_doc].
    unfold d2. destruct (bool_decide (pname self = _)); reflexivity.
  - exists <[id := w_clock w (w_reads w)]>. split; [lia|]. split; [done|].
    cbn [mbind M_bind dateNow onDoc snd w_doc]. unfold d2, api.setJoinAt.
    destruct (bool_decide (pname self = _)); reflexivity.
Qed.

Lemma freeFor_not_other (claims : gmap string string) (id attempt k : string) :
  freeFor claims id attempt = true → claims !! nameKey attempt = Some k →
  k ≠ EmptyString → k = id.
Proof.
  unfold freeFor, unowned, truthyStr. intros Hf Hk Hne. rewrite Hk in Hf.
  apply orb_true_iff in Hf as [Hf|Hf].
  - apply negb_true_iff, negb_false_iff, bool_decide_eq_true in Hf. done.
  - apply bool_decide_eq_true in Hf. congruence.
Qed.

Lemma joinNow_keeps_roster (id name : string) (w : World) :
  id ≠ EmptyString → rosterOk (w_doc w) → rosterOk (w_doc (exec (joinNow id name) w)).
Proof.
  intros Hid (Hwf & Hcov & Hemp).
  assert (Hkne : ∀ k p, playersY (w_doc w) !! k = Some p → k ≠ EmptyString).
  { intros k p Hp ->. by rewrite Hemp in Hp. }
  destruct (playersY (w_doc w) !! id) as [self|] eqn:Hself.
  - destruct (joinNow_again id name w self Hself) as (j & jat & Hj & Hfree & ->).
    set (a := attemptAt (joinBase name) j) in *.
    set (claims := if _ && _ then _ else _) in *.
    assert (Hclaims : ∀ k p, k ≠ id → playersY (w_doc w) !! k = Some p →
              claims !! nameKey (pname p) = Some k).
    { intros k p Hk Hp. pose proof (Hcov k p Hp) as Hc. unfold claims.
      destruct (_ && _) eqn:Hb; [|done].
      apply andb_true_iff in Hb as [Hb _]. apply bool_decide_eq_true in Hb.
      rewrite lookup_delete_ne; [done|]. intros E. rewrite E in Hb. congruence. }
    assert (Hpl : ∀ k, k ≠ id →
              playersY ((if bool_decide (pname self = a) then λ d, d
                         else onPlayers <[id := mkPlayer id a]>)
                          (onNameClaims (λ _, <[nameKey a := id]> claims) (w_doc w))) !! k
              = playersY (w_doc w) !! k).
    { intros k Hk. destruct (bool_decide (pname self = a));
        cbn [playersY onPlayers onNameClaims]; [done|by rewrite lookup_insert_ne]. }
    assert (Hme : ∃ p, playersY ((if bool_decide (pname self = a) then λ d, d
                         else onPlayers <[id := mkPlayer id a]>)
                          (onNameClaims (λ _, <[nameKey a := id]> claims) (w_doc w))) !! id
                     = Some p ∧ pid p = id ∧ pname p = a).
    { case_bool_decide as E; cbn [playersY onPlayers onNameClaims].
      - exists self. split; [done|]. split; [by apply Hwf|done].
      - exists (mkPlayer id a). by rewrite lookup_insert_eq. }
    assert (Hcl : nameClaimsY ((if bool_decide (pname self = a) then λ d, d
                         else onPlayers <[id := mkPlayer id a]>)
                          (onNameClaims (λ _, <[nameKey a := id]> claims) (w_doc w)))
                  = <[nameKey a := id]> claims).
    { by destruct (bool_decide (pname self = a)). }
    split; [|split].
    + intros k p. cbn [playersY onJoinAt]. destruct (decide (k = id)) as [->|Hk].
      * destruct Hme as (q & -> & Hq & _). by intros [= <-].
      * rewrite Hpl by done. apply Hwf.
    + intros k p. cbn [playersY nameClaimsY onJoinAt]. rewrite Hcl.
      destruct (decide (k = id)) as [->|Hk].
      * destruct Hme as (q & -> & _ & Hq). intros [= <-]. rewrite Hq.
        apply lookup_insert_eq.
      * rewrite Hpl by done. intros Hp. pose proof (Hclaims k p Hk Hp) as Hc.
        rewrite lookup_insert_ne; [done|]. intros E. rewrite <- E in Hc.
        apply Hk. eapply freeFor_not_other; eauto.
    + cbn [playersY onJoinAt]. rewrite Hpl by done. done.
  - destruct (joinNow_new id name w Hself) as (j & Hj & Hfree & ->).
    set (a := attemptAt (joinBase name) j) in *.
    assert (Hcl : ∀ key, key ≠ nameKey a →
              nameClaimsY (if unowned (nameClaimsY (w_doc w) !! nameKey a)
                           then onNameClaims <[nameKey a := id]> (w_doc w) else w_doc w) !! key
              = nameClaimsY (w_doc w) !! key).
    { intros key Hk. destruct (unowned _); cbn [nameClaimsY onNameClaims];
        [by rewrite lookup_insert_ne|done]. }
    assert (Hown : nameClaimsY (if unowned (nameClaimsY (w_doc w) !! nameKey a)
                           then onNameClaims <[nameKey a := id]> (w_doc w) else w_doc w)
                     !! nameKey a = Some id).
    { unfold freeFor in Hfree. destruct (unowned _) eqn:Hu; cbn [nameClaimsY onNameClaims].
      - apply lookup_insert_eq.
      - cbn [orb] in Hfree. by apply bool_decide_eq_true in Hfree. }
    assert (Hpl : playersY (if unowned (nameClaimsY (w_doc w) !! nameKey a)
                           then onNameClaims <[nameKey a := id]> (w_doc w) else w_doc w)
                  = playersY (w_doc w)).
    { by destruct (unowned _). }
    split; [|split].
    + intros k p. cbn [playersY api.setJoinAt onJoinAt onPlayers]. rewrite Hpl.
      destruct (decide (k = id)) as [->|Hk].
      * rewrite lookup_insert_eq. by intros [= <-].
      * rewrite lookup_insert_ne by done. apply Hwf.
    + intros k p. cbn [playersY nameClaimsY api.setJoinAt onJoinAt onPlayers]. rewrite Hpl.
      destruct (decide (k = id)) as [->|Hk].
      * rewrite lookup_insert_eq. intros [= <-]. exact Hown.
      * rewrite lookup_insert_ne by done. intros Hp. pose proof (Hcov k p Hp) as Hc.
        rewrite Hcl; [done|]. intros E. rewrite E in Hc. apply Hk.
        eapply freeFor_not_other; eauto.
    + cbn [playersY api.setJoinAt onJoinAt onPlayers]. rewrite Hpl.
      by rewrite lookup_insert_ne.
Qed.

(** X2. [joinNow] keeps the roster and the claims in agreement: after
    it, as before, every record sits under its own non-empty id and every
    player's name is claimed, under its key, by that player. *)
Theorem joinNow_rosterOk (id name : string) (w : World) :
  id ≠ EmptyString → rosterOk (w_doc w) → rosterOk (w_doc (exec (joinNow id name) w)).
Proof. apply joinNow_keeps_roster. Qed.

Lemma joinNow_rosterOk_witness :
  rosterOk (w_doc (exec (joinNow "p1" "Bob") (worldOf emptyDoc ticking draws0))).
Proof.
  apply (joinNow_rosterOk "p1" "Bob" (worldOf emptyDoc ticking draws0)); [done|].
  split; [|split]; try done; intros k p Hp; cbn in Hp; by rewrite lookup_empty in Hp.
Defined.

Lemma rosterOk_empty : rosterOk emptyDoc.
Proof. split; [|split]; try done; intros k p Hp; cbn in Hp; by rewrite lookup_empty in Hp. Qed.

Lemma joins_rosterOk (js : list (string * string)) (w : World) :
  Forall (λ j, j.1 ≠ EmptyString) js → rosterOk (w_doc w) → rosterOk (w_doc (joins js w)).
Proof.
  unfold joins. revert w. induction js as [|j js IH]; intros w Hjs Hok; [done|].
  apply Forall_cons in Hjs as [Hj Hjs]. cbn [foldl]. apply IH; [done|].
  by apply joinNow_keeps_roster.
Qed.

(** X3. After any sequence of joins into a fresh room, by clients with
    non-empty ids and under whatever names they ask for, no two players
    have names with the same key, and every player's key is claimed by
    that player. *)
Theorem joins_names_distinct (js : list (string * string)) (clock : nat → Z)
    (random : nat → nat) :
  Forall (λ j, j.1 ≠ EmptyString) js →
  let d := w_doc (joins js (worldOf emptyDoc clock random)) in
  claimsCover d
  ∧ ∀ k1 k2 p1 p2,
      playersY d !! k1 = Some p1 → playersY d !! k2 = Some p2 →
      nameKey (pname p1) = nameKey (pname p2) → k1 = k2.
Proof.
  intros Hjs d.
  destruct (joins_rosterOk js (worldOf emptyDoc clock random) Hjs rosterOk_empty)
    as (_ & Hcov & _).
  fold d in Hcov. split; [done|].
  intros k1 k2 p1 p2 H1 H2 E. apply Hcov in H1, H2. rewrite E in H1. congruence.
Qed.

Lemma joins_names_distinct_witness :
  claimsCover (w_doc (joins [("p1", "Bob"); ("p2", "bob"); ("p1", "Bob")]
                        (worldOf emptyDoc ticking draws0))).
Proof.
  refine (proj1 (joins_names_distinct [("p1", "Bob"); ("p2", "bob"); ("p1", "Bob")]
                   ticking draws0 _)).
  repeat constructor; done.
Defined.

End JoinFacts.

Module KeyFacts.
Import NameFacts.

Lemma list_of_append (a b : string) :
  list_ascii_of_string (a +:+ b) = list_ascii_of_string a ++ list_ascii_of_string b.
Proof.
  induction a as [|c r IH]; [done|].
  rewrite append_cons. cbn [list_ascii_of_string]. by rewrite IH.
Qed.

Lemma span_prefix {A} (f : A → bool) (a : list A) (x : A) (b : list A) :
  Forall (λ y, f y = true) a → f x = false → span f (a ++ x :: b) = (a, x :: b).
Proof.
  intros Ha Hx. induction Ha as [|y a Hy Ha IH]; cbn [span app].
  - by rewrite Hx.
  - by rewrite Hy, IH.
Qed.

Lemma allChars_Forall (f : ascii → bool) (s : string) :
  allChars f s = true → Forall (λ c, f c = true) (list_ascii_of_string s).
Proof.
  induction s as [|c r IH]; cbn; [constructor|].
  intros [Hc Hr]%andb_true_iff. constructor; auto.
Qed.

(** A normal, non-empty string ends in a character that is not white
    space. *)
Lemma normalFrom_last (s : string) (f : bool) :
  normalFrom f s = true → s ≠ EmptyString →
  ∃ l c, list_ascii_of_string s = l ++ [c] ∧ isSpace c = false.
Proof.
  revert f. induction s as [|c r IH]; intros f Hs Hne; [done|].
  destruct r as [|c' r'].
  - exists [], c. split; [done|]. cbn [normalFrom] in Hs.
    destruct (isSpace c); [|done]. by rewrite andb_false_r in Hs.
  - assert (Hr : ∃ g, normalFrom g (String c' r') = true).
    { cbn [normalFrom] in Hs. destruct (isSpace c).
      - apply andb_true_iff in Hs as [_ Hs]. by exists true.
      - by exists false. }
    destruct Hr as [g Hr]. destruct (IH g Hr) as (l & d & El & Hd); [done|].
    exists (c :: l), d. split; [|done].
    change (list_ascii_of_string (String c (String c' r')))
      with (c :: list_ascii_of_string (String c' r')).
    by rewrite El.
Qed.

Lemma stripNumberSuffix_numbered (b : string) (i : nat) :
  normal b = true → b ≠ EmptyString → stripNumberSuffix (numbered b i) = b.
Proof.
  intros Hb Hne.
  assert (Hb' : normalFrom true b = true) by (by destruct b).
  destruct (normalFrom_last b true Hb' Hne) as (l & c & El & Hc).
  destruct (pretty_nat_digits i) as [Hd Hdne].
  unfold stripNumberSuffix. rewrite numbered_suffix. unfold suffixOf.
  repeat (rewrite list_of_append; cbn [list_ascii_of_string app]).
  rewrite reverse_app, reverse_cons, reverse_cons, reverse_app.
  change (reverse [")"%char]) with [")"%char].
  rewrite <- !app_assoc. cbn [app].
  rewrite (span_prefix isDigit); [|by apply Forall_reverse, allChars_Forall|done].
  destruct (reverse (list_ascii_of_string (pretty i))) as [|d ds] eqn:Er.
  { apply (f_equal reverse) in Er. rewrite reverse_involutive in Er.
    destruct (pretty i); [done|discriminate]. }
  rewrite El, reverse_app. change (reverse [c]) with [c]. cbn [app span].
  change (isSpace " ") with true. cbn match. rewrite Hc.
  rewrite reverse_cons, reverse_involutive, <- El.
  apply string_of_list_ascii_of_string.
Qed.

(** X7. Numbering the name [joinNow] starts from and taking [baseName]
    of the result gives the name back: [baseName] undoes the template
    [`${base} (${i})`]. *)
Theorem baseName_numbered (name : string) (i : nat) :
  baseName (numbered (joinBase name) i) = joinBase name.
Proof.
  destruct (JoinFacts.joinBase_normal name) as [Hn Hne]. unfold baseName.
  rewrite normalizeName_fixed by by apply numbered_normal.
  by apply stripNumberSuffix_numbered.
Qed.









End KeyFacts.

Module RoomId.
Import NameFacts.

Lemma sliceTo_length (n : nat) (s : string) : (String.length (sliceTo n s) ≤ n)%nat.
Proof.
  revert s. induction n as [|n IH]; intros [|c r]; cbn; try lia.
  specialize (IH r). lia.
Qed.

Lemma sliceTo_allChars (f : ascii → bool) (n : nat) (s : string) :
  allChars f s = true → allChars f (sliceTo n s) = true.
Proof.
  revert s. induction n as [|n IH]; intros [|c r]; cbn; try done.
  intros [Hc Hr]%andb_true_iff. by rewrite Hc, IH.
Qed.

Lemma sliceTo_short (n : nat) (s : string) :
  (String.length s ≤ n)%nat → sliceTo n s = s.
Proof.
  revert s. induction n as [|n IH]; intros [|c r]; cbn; try done; try lia.
  intros H. rewrite IH; [done|lia].
Qed.

Lemma keepChars_allChars (f : ascii → bool) (s : string) :
  allChars f (keepChars f s) = true.
Proof.
  induction s as [|c r IH]; [done|]. cbn [keepChars].
  destruct (f c) eqn:Hc; [|done]. cbn [allChars]. by rewrite Hc, IH.
Qed.

Lemma keepChars_fixed (f : ascii → bool) (s : string) :
  allChars f s = true → keepChars f s = s.
Proof.
  induction s as [|c r IH]; [done|]. cbn.
  intros [Hc Hr]%andb_true_iff. by rewrite Hc, IH.
Qed.

Lemma roomChar_lower (c : ascii) : isRoomChar c = true → lowerChar c = c.
Proof. by destruct c as [[] [] [] [] [] [] [] []]. Qed.

Lemma toLowerCase_room (s : string) :
  allChars isRoomChar s = true → toLowerCase s = s.
Proof.
  induction s as [|c r IH]; [done|]. cbn.
  intros [Hc Hr]%andb_true_iff. by rewrite (roomChar_lower c Hc), IH.
Qed.

(** X9. A normalised room id has at most 40 characters, all of them
    lower-case letters, digits or hyphens, and normalising it again
    changes nothing. *)
Theorem normalizeRoom_shape (input : string) :
  (String.length (normalizeRoom input) ≤ 40)%nat
  ∧ allChars isRoomChar (normalizeRoom input) = true
  ∧ normalizeRoom (normalizeRoom input) = normalizeRoom input.
Proof.
  assert (Hl : (String.length (normalizeRoom input) ≤ 40)%nat)
    by apply sliceTo_length.
  assert (Hc : allChars isRoomChar (normalizeRoom input) = true)
    by apply sliceTo_allChars, keepChars_allChars.
  split; [done|]. split; [done|].
  unfold normalizeRoom at 1.
  by rewrite (toLowerCase_room _ Hc), (keepChars_fixed _ _ Hc), sliceTo_short.
Qed.

End RoomId.
Module Leave.
Import NameFacts JoinFacts.

Lemma removePlayerNow_claims (id : string) (d : Doc) :
  nameClaimsY (removePlayerNow id d)
  = match playersY d !! id with
    | Some cur =>
        if bool_decide (nameClaimsY d !! nameKey (pname cur) = Some id)
        then delete (nameKey (pname cur)) (nameClaimsY d) else nameClaimsY d
    | None => nameClaimsY d
    end.
Proof.
  unfold removePlayerNow.
  destruct (playersY d !! id) as [cur|];
    repeat (case_match; cbn [nameClaimsY onState onOpenVoteReq onActivity onVotes onLastSeen
                               onJoinAt onPlayers onNameClaims]); reflexivity.
Qed.

Lemma leave_roster (id : string) (d : Doc) :
  rosterOk d →
  rosterOk (removePlayerNow id d)
  ∧ playersY (removePlayerNow id d) !! id = None
  ∧ ∀ p, playersY d !! id = Some p →
         nameClaimsY (removePlayerNow id d) !! nameKey (pname p) = None.
Proof.
  intros (Hwf & Hcov & Hemp).
  split; [split; [|split]|split].
  - intros k p. rewrite IdleClose.removePlayerNow_players.
    intros [_ Hp]%lookup_delete_Some. by apply Hwf.
  - intros k p. rewrite IdleClose.removePlayerNow_players, removePlayerNow_claims.
    intros [Hk Hp]%lookup_delete_Some. pose proof (Hcov k p Hp) as Hc.
    destruct (playersY d !! id) as [cur|]; [|done].
    case_bool_decide as Hown; [|done].
    rewrite lookup_delete_ne; [done|]. intros E. rewrite E in Hown. congruence.
  - rewrite IdleClose.removePlayerNow_players. by apply lookup_delete_None; right.
  - rewrite IdleClose.removePlayerNow_players. apply lookup_delete_eq.
  - intros p Hp. rewrite removePlayerNow_claims, Hp.
    rewrite bool_decide_eq_true_2 by by apply Hcov.
    apply lookup_delete_eq.
Qed.

(** X10. Leaving keeps the roster and the claims in agreement, takes the
    leaver off the roster and releases the key of the leaver's name. *)
Theorem removePlayer_rosterOk (id : string) (w : World) :
  rosterOk (w_doc w) →
  let d := w_doc (exec (removePlayer id) w) in
  rosterOk d
  ∧ playersY d !! id = None
  ∧ ∀ p, playersY (w_doc w) !! id = Some p → nameClaimsY d !! nameKey (pname p) = None.
Proof. intros Hok. by apply leave_roster. Qed.

Lemma removePlayer_rosterOk_witness :
  let w := threeJoins "Bob" in
  let d := w_doc (exec (removePlayer "p2") w) in
  rosterOk d ∧ playersY d !! "p2" = None.
Proof.
  intros w d.
  assert (Hok : rosterOk (w_doc w)).
  { apply (joins_rosterOk [("p1", "Bob"); ("p2", "Bob"); ("p3", "Bob")]
             (worldOf emptyDoc ticking draws0)); [|apply rosterOk_empty].
    repeat constructor; done. }
  pose proof (removePlayer_rosterOk "p2" w Hok) as H. cbv zeta in H.
  destruct H as (H1 & H2 & _). split; [exact H1|exact H2].
Defined.




End Leave.
Module LastLeave.

Lemma leave_then_flush (id : string) (w : World) :
  w_queued w = O →
  exec flushMicrotasks (exec (removePlayer id) w)
  = exec removePlayerMicrotask
      (mkWorld (removePlayerNow id (w_doc w)) (processedVotesForRoundRef w) (forceEndRef w)
         (w_clock w) (w_reads w) (w_random w) (w_draws w) 0).
Proof.
  intros Hq. destruct w as [d pr fe ck rd rn dr qu]. cbn [w_queued] in Hq. subst qu.
  unfold flushMicrotasks, removePlayer, exec, mbind, M_bind, onDoc, queueMicrotask.
  cbn [snd w_queued w_doc processedVotesForRoundRef forceEndRef w_clock w_reads
       w_random w_draws runQueued].
  unfold mbind, M_bind, mret, M_ret.
  by destruct (removePlayerMicrotask _).
Qed.

(** X16. When a player leaves and the queued microtask has run: if
    nobody else was on the roster the room is reset (every map empty,
    every state field at its default), and if somebody else was, the
    microtask changes nothing in the document. *)
Theorem last_leave_resets (id : string) (w : World) :
  w_queued w = O →
  let w1 := exec flushMicrotasks (exec (removePlayer id) w) in
  ((∀ k, k ≠ id → playersY (w_doc w) !! k = None) → isReset (w_doc w1))
  ∧ (∀ other, other ≠ id → is_Some (playersY (w_doc w) !! other) →
       w_doc w1 = removePlayerNow id (w_doc w)).
Proof.
  intros Hq w1. unfold w1. rewrite (leave_then_flush id w Hq). split.
  - intros Halone. apply IdleClose.microtask_resets. cbn [w_doc].
    rewrite IdleClose.removePlayerNow_players. apply map_eq. intros k.
    rewrite lookup_empty. destruct (decide (k = id)) as [->|Hk].
    + apply lookup_delete_eq.
    + rewrite lookup_delete_ne by done. by apply Halone.
  - intros other Hne [p Hp]. unfold removePlayerMicrotask, exec. cbn [w_doc].
    rewrite bool_decide_eq_false_2; [done|].
    rewrite IdleClose.removePlayerNow_players. intros Hs.
    apply map_size_empty_inv in Hs.
    assert (Hl : delete id (playersY (w_doc w)) !! other = Some p)
      by by rewrite lookup_delete_ne.
    rewrite Hs, lookup_empty in Hl. discriminate Hl.
Qed.

Lemma last_leave_resets_witness :
  let w := worldOf (joinedAt 10 ["a"] (api.setState (votingRound ["a"]) emptyDoc))
             at1000 draws0 in
  isReset (w_doc (exec flushMicrotasks (exec (removePlayer "a") w))).
Proof.
  intros w.
  refine (proj1 (last_leave_resets "a" w _) _); [reflexivity|].
  intros k Hk. cbn [w worldOf w_doc joinedAt foldl api.setActivity api.setJoinAt api.addPlayer
                    onActivity onJoinAt onPlayers playersY api.setState onState emptyDoc pid].
  by rewrite lookup_insert_ne.
Defined.

End LastLeave.
